(** * Barretenberg: ProtoGalaxy perturbator construction and the lookup /
    ECCVM-set relation algebra.

    Shallow embedding of

    - [honk/proof_system/protogalaxy_prover.hpp]
      ([compute_round_challenge_pows], [compute_level],
      [construct_perturbator_coeffs]);
    - [proof_system/relations/lookup_relation.hpp]
      ([compute_grand_product_numerator], [compute_grand_product_denominator],
      [accumulate]);
    - [proof_system/relations/ecc_vm/ecc_set_relation.hpp]
      ([convert_to_wnaf]).

    The C++ code is generic in the field type [FF]; so is the embedding.
    [std::vector] is a [list] with checked indexing: every access outside of
    the vector is undefined behaviour in C++ and the error [OutOfBounds] here.
    [size_t] values are indices into vectors that live in memory and are
    modelled as [nat]. *)

From Stdlib Require Import ZArith Ring Lia Eqdep_dec.
From stdpp Require Import base list.

Local Open Scope Z_scope.
Local Open Scope nat_scope.

(** ** The field interface

    [FF] is a template parameter of every function below
    ([typename Flavor::FF]).  The code only uses [+], [-], [*], [sqr()] and
    the construction of a field element from an integer literal, hence only
    the commutative-ring fragment of the field is required here; every
    prime field is an instance. *)

Class FieldElement : Type := {
  FF : Type;
  FF_zero : FF;
  FF_one : FF;
  FF_add : FF -> FF -> FF;
  FF_mul : FF -> FF -> FF;
  FF_sub : FF -> FF -> FF;
  FF_neg : FF -> FF;
  FF_sqr : FF -> FF;
  FF_ring : ring_theory FF_zero FF_one FF_add FF_mul FF_sub FF_neg (@eq FF);
  FF_sqr_mul : forall x, FF_sqr x = FF_mul x x
}.

Declare Scope FF_scope.
Delimit Scope FF_scope with FF.
Bind Scope FF_scope with FF.
Infix "+" := FF_add : FF_scope.
Infix "*" := FF_mul : FF_scope.
Infix "-" := FF_sub : FF_scope.
Notation "- x" := (FF_neg x) : FF_scope.
Notation "0" := FF_zero : FF_scope.
Notation "1" := FF_one : FF_scope.

Section FieldDerived.
Context {F : FieldElement}.

(** [FF(n)] for an integer literal [n]: the image of [n] in the field. *)
Fixpoint FF_of_pos (p : positive) : FF :=
  match p with
  | xH => 1
  | xO p' => (1 + 1) * FF_of_pos p'
  | xI p' => 1 + (1 + 1) * FF_of_pos p'
  end%FF.

Definition FF_of_Z (z : Z) : FF :=
  match z with
  | Z0 => 0
  | Zpos p => FF_of_pos p
  | Zneg p => - FF_of_pos p
  end%FF.

(** [x^n] by repeated multiplication, the meaning of δ^n in the
    documentation. *)
Fixpoint FF_pow (x : FF) (n : nat) : FF :=
  match n with
  | O => 1
  | S n' => x * FF_pow x n'
  end%FF.
End FieldDerived.

(** ** The BN254 scalar field, the [FF] of the Ultra flavor

    Elements are the integers in [[0, modulus)]; every operation reduces its
    result.  The instance shows that the interface is inhabited and is the
    field on which concrete runs are evaluated. *)

Module Bn254.
Definition modulus : Z :=
  21888242871839275222246405745257275088548364400416034343698204186575808495617%Z.

Definition canonical (z : Z) : bool := ((0 <=? z) && (z <? modulus))%Z.

Record fr : Type := mk_fr { fr_val : Z; fr_canon : canonical fr_val = true }.

(* A proof of [b = true] that evaluates to [eq_refl] on closed terms. *)
Definition squash {b : bool} : b = true -> b = true :=
  match b with
  | true => fun _ => eq_refl
  | false => fun H => H
  end.

Lemma modulus_pos : (0 < modulus)%Z.
Proof. reflexivity. Qed.

Lemma reduce_canonical (z : Z) : canonical (z mod modulus) = true.
Proof.
  unfold canonical.
  pose proof (Z.mod_pos_bound z modulus modulus_pos) as [Hlo Hhi].
  apply andb_true_intro; split.
  - now apply Z.leb_le.
  - now apply Z.ltb_lt.
Qed.

Definition reduce (z : Z) : fr :=
  mk_fr (z mod modulus) (squash (reduce_canonical z)).

Definition fr_add (a b : fr) : fr := reduce (fr_val a + fr_val b).
Definition fr_mul (a b : fr) : fr := reduce (fr_val a * fr_val b).
Definition fr_sub (a b : fr) : fr := reduce (fr_val a - fr_val b).
Definition fr_neg (a : fr) : fr := reduce (- fr_val a).
Definition fr_sqr (a : fr) : fr := reduce (fr_val a * fr_val a).

Lemma fr_eq (a b : fr) : fr_val a = fr_val b -> a = b.
Proof.
  destruct a as [x Hx], b as [y Hy]; simpl; intros Hxy; subst y.
  f_equal. apply UIP_dec, Bool.bool_dec.
Qed.

Lemma fr_val_small (a : fr) : (fr_val a mod modulus = fr_val a)%Z.
Proof.
  destruct a as [x Hx]; simpl. unfold canonical in Hx.
  apply andb_prop in Hx as [Hlo Hhi].
  apply Z.leb_le in Hlo. apply Z.ltb_lt in Hhi.
  apply Z.mod_small; lia.
Qed.

Lemma fr_ring : ring_theory (reduce 0) (reduce 1) fr_add fr_mul fr_sub fr_neg (@eq fr).
Proof.
  constructor; intros; apply fr_eq; simpl.
  - rewrite Z.add_mod_idemp_l by discriminate. apply fr_val_small.
  - f_equal; lia.
  - rewrite Z.add_mod_idemp_l, Z.add_mod_idemp_r by discriminate. f_equal; lia.
  - rewrite Z.mul_mod_idemp_l by discriminate.
    rewrite Z.mul_1_l. apply fr_val_small.
  - f_equal; lia.
  - rewrite Z.mul_mod_idemp_l, Z.mul_mod_idemp_r by discriminate. f_equal; lia.
  - rewrite Z.mul_mod_idemp_l by discriminate.
    rewrite <- Z.add_mod by discriminate. f_equal; lia.
  - rewrite Z.add_mod_idemp_r by discriminate. f_equal; lia.
  - rewrite Z.add_mod_idemp_r by discriminate. f_equal; lia.
Qed.

#[export] Instance Fr : FieldElement := {|
  FF := fr;
  FF_zero := reduce 0;
  FF_one := reduce 1;
  FF_add := fr_add;
  FF_mul := fr_mul;
  FF_sub := fr_sub;
  FF_neg := fr_neg;
  FF_sqr := fr_sqr;
  FF_ring := fr_ring;
  FF_sqr_mul := fun x => eq_refl
|}.
End Bn254.

(** ** Outcomes of a run

    A run of the C++ code either returns, or touches a vector outside of its
    bounds (undefined behaviour), or, in the model only, exhausts the fuel
    that bounds the depth of the recursion of [compute_level]. *)

Inductive error : Type := OutOfBounds | OutOfFuel.

Inductive result (A : Type) : Type :=
| Ok (a : A)
| Err (e : error).
Arguments Ok {A} a.
Arguments Err {A} e.

Definition bind {A B : Type} (m : result A) (k : A -> result B) : result B :=
  match m with
  | Ok a => k a
  | Err e => Err e
  end.

Notation "x <- m ;; k" := (bind m (fun x => k))
  (at level 100, m at next level, right associativity,
   format "'[v' x  <-  m  ;; '/' k ']'").

(** ** [std::vector] *)

Section Vector.
Context {A : Type}.

(** [std::vector<A> v(n, x)] *)
Definition vec_new (n : nat) (x : A) : list A := replicate n x.

(** [v[i]] as an rvalue *)
Definition vec_get (v : list A) (i : nat) : result A :=
  match v !! i with
  | Some x => Ok x
  | None => Err OutOfBounds
  end.

(** [v[i] = x] *)
Definition vec_set (v : list A) (i : nat) (x : A) : result (list A) :=
  if decide (i < length v) then Ok (<[i := x]> v) else Err OutOfBounds.

(** [std::copy(src.begin(), src.end(), dst.begin())]: the first
    [src.size()] cells of [dst] are overwritten; [dst] must have room. *)
Definition vec_copy (src dst : list A) : result (list A) :=
  if decide (length src <= length dst)
  then Ok (src ++ drop (length src) dst)
  else Err OutOfBounds.

End Vector.

(** [m[i][j]] as an rvalue *)
Definition vec2_get {A : Type} (m : list (list A)) (i j : nat) : result A :=
  row <- vec_get m i ;;
  vec_get row j.

(** [m[i][j] = x] *)
Definition vec2_set {A : Type} (m : list (list A)) (i j : nat) (x : A)
    : result (list (list A)) :=
  row <- vec_get m i ;;
  row' <- vec_set row j x ;;
  vec_set m i row'.

(** ** [for] loops

    [for (size_t i = start; i < stop; i += step) body] with [step > 0] runs
    [trip_count start stop step] times; the body receives the loop variable
    and the state it mutates, and an error in the body ends the run. *)

Definition trip_count (start stop step : nat) : nat :=
  (stop - start + (step - 1)) / step.

Fixpoint for_iter {S : Type} (n : nat) (i step : nat)
    (body : nat -> S -> result S) (s : S) : result S :=
  match n with
  | O => Ok s
  | S n' => s' <- body i s ;; for_iter n' (i + step) step body s'
  end.

Definition for_loop {S : Type} (start stop step : nat)
    (body : nat -> S -> result S) (s : S) : result S :=
  for_iter (trip_count start stop step) start step body s.

(** ** [ProtoGalaxyProver_] (protogalaxy_prover.hpp) *)

Section ProtoGalaxy.
Context {F : FieldElement}.
Local Open Scope FF_scope.

(** [compute_round_challenge_pows], lines 33-41.  The cells of
    [std::vector<FF> pows(log_instance_size)] are all written before the
    function reads them; they start as [0] here. *)
Definition compute_round_challenge_pows (log_instance_size : nat)
    (round_challenge : FF) : result (list FF) :=
  let pows := vec_new log_instance_size 0 in
  pows <- vec_set pows 0%nat round_challenge ;;
  for_loop 1 log_instance_size 1
    (fun i pows =>
       prev <- vec_get pows (i - 1)%nat ;;
       vec_set pows i (FF_sqr prev))
    pows.

(** [m[i][j] += x] *)
Definition vec2_add_assign (m : list (list FF)) (i j : nat) (x : FF)
    : result (list (list FF)) :=
  cur <- vec2_get m i j ;;
  vec2_set m i j (cur + x).

(** The body of the [node] loop of [compute_level], lines 81-86. *)
Definition compute_level_node (level : nat) (betas deltas : list FF)
    (prev_level_coeffs : list (list FF))
    (node : nat) (level_coeffs : list (list FF)) : result (list (list FF)) :=
  let degree := (level + 1)%nat in
  let parent := (node / 2)%nat in
  src <- vec_get prev_level_coeffs node ;;
  dst <- vec_get level_coeffs parent ;;
  dst <- vec_copy src dst ;;
  level_coeffs <- vec_set level_coeffs parent dst ;;
  for_loop 0 degree 1
    (fun d level_coeffs =>
       r <- vec2_get prev_level_coeffs (node + 1)%nat d ;;
       beta <- vec_get betas level ;;
       level_coeffs <- vec2_add_assign level_coeffs parent d (r * beta) ;;
       r <- vec2_get prev_level_coeffs (node + 1)%nat d ;;
       delta <- vec_get deltas level ;;
       vec2_add_assign level_coeffs parent (d + 1)%nat (r * delta))
    level_coeffs.

(** One level of the tree: lines 76-87 of [compute_level], from the
    allocation of [level_coeffs] to the end of the [node] loop. *)
Definition compute_level_coeffs (level : nat) (betas deltas : list FF)
    (prev_level_coeffs : list (list FF)) : result (list (list FF)) :=
  let degree := (level + 1)%nat in
  let prev_level_width := length prev_level_coeffs in
  let level_coeffs := vec_new (prev_level_width / 2)%nat (vec_new (degree + 1)%nat 0) in
  for_loop 0 prev_level_width 2
    (compute_level_node level betas deltas prev_level_coeffs)
    level_coeffs.

(** [compute_level], lines 65-89.  The recursion is on [level], which
    grows; [fuel] bounds the number of nested calls. *)
Fixpoint compute_level (fuel : nat) (level : nat) (betas deltas : list FF)
    (prev_level_coeffs : list (list FF)) : result (list FF) :=
  match fuel with
  | O => Err OutOfFuel
  | S fuel' =>
      if decide (level = length betas) then vec_get prev_level_coeffs 0%nat
      else
        level_coeffs <- compute_level_coeffs level betas deltas prev_level_coeffs ;;
        compute_level fuel' (level + 1)%nat betas deltas level_coeffs
  end.

(** The leaf level: lines 96-102 of [construct_perturbator_coeffs]. *)
Definition first_level_coeffs (betas deltas full_honk_evaluations : list FF)
    : result (list (list FF)) :=
  let width := length full_honk_evaluations in
  let first_level_coeffs := vec_new (width / 2)%nat (vec_new 2 0) in
  for_loop 0 width 2
    (fun node first_level_coeffs =>
       let idx := (node / 2)%nat in
       e0 <- vec_get full_honk_evaluations node ;;
       e1 <- vec_get full_honk_evaluations (node + 1)%nat ;;
       beta <- vec_get betas 0%nat ;;
       first_level_coeffs <- vec2_set first_level_coeffs idx 0%nat (e0 + e1 * beta) ;;
       e1 <- vec_get full_honk_evaluations (node + 1)%nat ;;
       delta <- vec_get deltas 0%nat ;;
       vec2_set first_level_coeffs idx 1%nat (e1 * delta))
    first_level_coeffs.

(** [construct_perturbator_coeffs], lines 91-104. *)
Definition construct_perturbator_coeffs (fuel : nat)
    (betas deltas full_honk_evaluations : list FF) : result (list FF) :=
  first_level_coeffs <- first_level_coeffs betas deltas full_honk_evaluations ;;
  compute_level fuel 1 betas deltas first_level_coeffs.
End ProtoGalaxy.

(** ** Relations (relation_types.hpp, lookup_relation.hpp,
       ecc_set_relation.hpp)

    The relation arithmetic is embedded for the value accumulators of
    [Relation] ([ValueAccumulatorsAndViewsTemplate]: the accumulator is a
    [std::array<FF, 2>] and, as relation_types.hpp puts it, there is no
    view type, so [View] is the identity on [FF]). *)

Section Relations.
Context {F : FieldElement}.
Local Open Scope FF_scope.

(** Modelled from the spec: [RelationParameters] (relation_parameters.hpp
    is not part of the sources), the bag of protocol randomness
    [{beta, gamma, eta, eta_sqr, eta_cube, public_input_delta,
    lookup_grand_product_delta}]. *)
Record RelationParameters : Type := {
  beta : FF;
  gamma : FF;
  eta : FF;
  eta_sqr : FF;
  eta_cube : FF;
  public_input_delta : FF;
  lookup_grand_product_delta : FF
}.

(** The members of the template parameter [AllEntities] that the lookup
    relation reads, one value per column for the row at hand. *)
Record AllEntities : Type := {
  w_l : FF; w_r : FF; w_o : FF;
  w_l_shift : FF; w_r_shift : FF; w_o_shift : FF;
  table_1 : FF; table_2 : FF; table_3 : FF; table_4 : FF;
  table_1_shift : FF; table_2_shift : FF; table_3_shift : FF; table_4_shift : FF;
  q_o : FF; q_r : FF; q_m : FF; q_c : FF; q_lookup : FF;
  sorted_accum : FF; sorted_accum_shift : FF;
  z_lookup : FF; z_lookup_shift : FF;
  lagrange_first : FF; lagrange_last : FF
}.

(** [typename Accumulator::View] of the value accumulators. *)
Definition View (x : FF) : FF := x.

(** The value accumulators of a relation with two subrelations;
    [get0_add_assign acc x] is [std::get<0>(acc) += x]. *)
Definition get0_add_assign (accumulators : FF * FF) (x : FF) : FF * FF :=
  (fst accumulators + x, snd accumulators).
Definition get1_add_assign (accumulators : FF * FF) (x : FF) : FF * FF :=
  (fst accumulators, snd accumulators + x).
End Relations.

Module LookupRelationImpl.
Section LookupRelationImpl.
Context {F : FieldElement}.
Local Open Scope FF_scope.

(** [SUBRELATION_LENGTHS], lines 26-29. *)
Definition SUBRELATION_LENGTHS : list nat := [6%nat; 3%nat].

(** [compute_grand_product_numerator], lines 59-111. *)
Definition compute_grand_product_numerator (new_term : AllEntities)
    (relation_parameters : RelationParameters) : FF :=
  let beta := beta relation_parameters in
  let gamma := gamma relation_parameters in
  let eta := eta relation_parameters in
  let eta_sqr := eta * eta in
  let eta_cube := eta_sqr * eta in
  let one_plus_beta := FF_of_Z 1 + beta in
  let gamma_by_one_plus_beta := gamma * one_plus_beta in
  let w_1 := View (w_l new_term) in
  let w_2 := View (w_r new_term) in
  let w_3 := View (w_o new_term) in
  let w_1_shift := View (w_l_shift new_term) in
  let w_2_shift := View (w_r_shift new_term) in
  let w_3_shift := View (w_o_shift new_term) in
  let table_1 := View (table_1 new_term) in
  let table_2 := View (table_2 new_term) in
  let table_3 := View (table_3 new_term) in
  let table_4 := View (table_4 new_term) in
  let table_1_shift := View (table_1_shift new_term) in
  let table_2_shift := View (table_2_shift new_term) in
  let table_3_shift := View (table_3_shift new_term) in
  let table_4_shift := View (table_4_shift new_term) in
  let table_index := View (q_o new_term) in
  let column_1_step_size := View (q_r new_term) in
  let column_2_step_size := View (q_m new_term) in
  let column_3_step_size := View (q_c new_term) in
  let q_lookup := View (q_lookup new_term) in
  let wire_accum :=
    (w_1 + column_1_step_size * w_1_shift) + (w_2 + column_2_step_size * w_2_shift) * eta +
    (w_3 + column_3_step_size * w_3_shift) * eta_sqr + table_index * eta_cube in
  let table_accum := table_1 + table_2 * eta + table_3 * eta_sqr + table_4 * eta_cube in
  let table_accum_shift :=
    table_1_shift + table_2_shift * eta + table_3_shift * eta_sqr + table_4_shift * eta_cube in
  let tmp := q_lookup * wire_accum + gamma in
  let tmp := tmp * (table_accum + table_accum_shift * beta + gamma_by_one_plus_beta) in
  let tmp := tmp * one_plus_beta in
  tmp.

(** [compute_grand_product_denominator], lines 124-143. *)
Definition compute_grand_product_denominator (in_ : AllEntities)
    (relation_parameters : RelationParameters) : FF :=
  let beta := beta relation_parameters in
  let gamma := gamma relation_parameters in
  let one_plus_beta := FF_of_Z 1 + beta in
  let gamma_by_one_plus_beta := gamma * one_plus_beta in
  let s_accum := View (sorted_accum in_) in
  let s_accum_shift := View (sorted_accum_shift in_) in
  let tmp := s_accum + s_accum_shift * beta + gamma_by_one_plus_beta in
  tmp.

(** [accumulate], lines 163-198: the two lambdas run one after the other
    on the accumulators passed by reference. *)
Definition accumulate (accumulators : FF * FF) (new_term : AllEntities)
    (relation_parameters : RelationParameters) (scaling_factor : FF) : FF * FF :=
  let grand_product_delta := lookup_grand_product_delta relation_parameters in
  let accumulators :=
    let z_lookup := View (z_lookup new_term) in
    let z_lookup_shift := View (z_lookup_shift new_term) in
    let lagrange_first := View (lagrange_first new_term) in
    let lagrange_last := View (lagrange_last new_term) in
    let lhs := compute_grand_product_numerator new_term relation_parameters in
    let rhs := compute_grand_product_denominator new_term relation_parameters in
    let tmp :=
      lhs * (z_lookup + lagrange_first) -
      rhs * (z_lookup_shift + lagrange_last * grand_product_delta) in
    get0_add_assign accumulators (tmp * scaling_factor) in
  let accumulators :=
    let z_lookup_shift := View (z_lookup_shift new_term) in
    let lagrange_last := View (lagrange_last new_term) in
    get1_add_assign accumulators ((lagrange_last * z_lookup_shift) * scaling_factor) in
  accumulators.
End LookupRelationImpl.
End LookupRelationImpl.

Module ECCVMSetRelationBase.
Section ECCVMSetRelationBase.
Context {F : FieldElement}.
Local Open Scope FF_scope.

(** [SUBRELATION_LENGTHS], lines 16-19. *)
Definition SUBRELATION_LENGTHS : list nat := [19%nat; 19%nat].

(** [convert_to_wnaf], lines 26-34. *)
Definition convert_to_wnaf (s0 s1 : FF) : FF :=
  let t := s0 + s0 in
  let t := t + t in
  let t := t + s1 in
  let naf := t + t - FF_of_Z 15 in
  naf.
End ECCVMSetRelationBase.
End ECCVMSetRelationBase.

(** ** The levels of the tree, as the specification words them

    These definitions follow section 4.4 of the specification; the
    theorems below compare them with [first_level_coeffs] and
    [compute_level_coeffs]. *)

Section PerturbatorSpec.
Context {F : FieldElement}.
Local Open Scope FF_scope.

(** Coefficient [i] of [coeffs] increased by [x]. *)
Definition add_at (coeffs : list FF) (i : nat) (x : FF) : list FF :=
  match coeffs !! i with
  | Some c => <[i := c + x]> coeffs
  | None => coeffs
  end.

(** Level 0: the rows [2i] and [2i + 1], of values [v0] and [v1],
    contribute [[v0 + β₀·v1, δ₀·v1]]. *)
Definition leaf_pair (beta_0 delta_0 v0 v1 : FF) : list FF :=
  [v0 + beta_0 * v1; delta_0 * v1].

(** Level [k]: [left] extended with a zero coefficient, then, for every
    degree [d] from [0] to [k], coefficient [d] increased by
    [right[d]·β_k] and coefficient [d + 1] by [right[d]·δ_k]. *)
Definition combine_step (beta_k delta_k : FF) (right : list FF)
    (result : list FF) (d : nat) : list FF :=
  add_at (add_at result d (nth d right 0 * beta_k)) (d + 1) (nth d right 0 * delta_k).

Definition combine_pair (k : nat) (beta_k delta_k : FF) (left right : list FF)
    : list FF :=
  foldl (combine_step beta_k delta_k right) (left ++ [0]) (seq 0 (k + 1)).
End PerturbatorSpec.

(** ** Inputs of the worked scenarios, over the BN254 scalar field *)

Module Scenario.
Import Bn254.

(** β = 2, γ = 3, η = 5; the other parameters play no role in the
    numerator and the denominator. *)
Definition lookup_parameters : RelationParameters (F := Fr) := {|
  beta := reduce 2; gamma := reduce 3; eta := reduce 5;
  eta_sqr := reduce 25; eta_cube := reduce 125;
  public_input_delta := reduce 0; lookup_grand_product_delta := reduce 0
|}.

(** One row: [w_l = 1], [q_lookup = 1], [table_1 = 1], [sorted_accum = 1],
    every other column zero. *)
Definition lookup_row : AllEntities (F := Fr) := {|
  w_l := reduce 1; w_r := reduce 0; w_o := reduce 0;
  w_l_shift := reduce 0; w_r_shift := reduce 0; w_o_shift := reduce 0;
  table_1 := reduce 1; table_2 := reduce 0; table_3 := reduce 0; table_4 := reduce 0;
  table_1_shift := reduce 0; table_2_shift := reduce 0;
  table_3_shift := reduce 0; table_4_shift := reduce 0;
  q_o := reduce 0; q_r := reduce 0; q_m := reduce 0; q_c := reduce 0;
  q_lookup := reduce 1;
  sorted_accum := reduce 1; sorted_accum_shift := reduce 0;
  z_lookup := reduce 0; z_lookup_shift := reduce 0;
  lagrange_first := reduce 0; lagrange_last := reduce 0
|}.
End Scenario.

(** ** The perturbator as a polynomial

    [compute_level] documents its result as "the coefficients of the
    perturbator polynomial"; these definitions give the polynomial a
    value. *)

Section PerturbatorPolynomial.
Context {F : FieldElement}.
Local Open Scope FF_scope.

(** The value at [x] of the polynomial with coefficients [coeffs], lowest
    degree first. *)
Fixpoint eval_poly (coeffs : list FF) (x : FF) : FF :=
  match coeffs with
  | [] => 0
  | c :: coeffs' => c + x * eval_poly coeffs' x
  end.

(** The factor that level [k] of the tree attaches to the right-hand
    vector of a pair: [betas[k] + deltas[k] * x]. *)
Definition level_factors (betas deltas : list FF) (x : FF) : list FF :=
  zip_with (fun beta delta => beta + delta * x) betas deltas.

(** The weight of row [i]: the product of the factors [gs[k]] over the
    bits [k] that are set in [i]. *)
Fixpoint row_weight (gs : list FF) (i : nat) : FF :=
  match gs with
  | [] => 1
  | g :: gs' => (if Nat.odd i then g else 1) * row_weight gs' (i / 2)
  end.

(** [vs[0] * row_weight gs i + vs[1] * row_weight gs (i + 1) + ...] *)
Fixpoint weighted_sum (gs : list FF) (i : nat) (vs : list FF) : FF :=
  match vs with
  | [] => 0
  | v :: vs' => v * row_weight gs i + weighted_sum gs (S i) vs'
  end.

(** One level on values: neighbours [(v0, v1)] become [v0 + g * v1]. *)
Fixpoint fold_pairs (g : FF) (vs : list FF) : list FF :=
  match vs with
  | v0 :: v1 :: vs' => (v0 + g * v1) :: fold_pairs g vs'
  | _ => []
  end.

(** All the levels, one factor per level. *)
Fixpoint fold_levels (gs : list FF) (vs : list FF) : list FF :=
  match gs with
  | [] => vs
  | g :: gs' => fold_levels gs' (fold_pairs g vs)
  end.
End PerturbatorPolynomial.

(** ** [get_execution_row] and [compute_perturbator]
       (protogalaxy_prover.hpp, lines 43-52 and 107-125) *)

(** Range-based [for (auto& a : l) body]. *)
Fixpoint for_each {A S : Type} (l : list A) (body : A -> S -> result S) (s : S)
    : result S :=
  match l with
  | [] => Ok s
  | a :: l' => s' <- body a s ;; for_each l' body s'
  end.

(** A run that may also stop at an [assert]. *)
Inductive failure : Type := AssertionFailed | RunError (e : error).

Inductive checked (A : Type) : Type :=
| Done (a : A)
| Failed (f : failure).
Arguments Done {A} a.
Arguments Failed {A} f.

Definition checked_bind {A B : Type} (m : checked A) (k : A -> checked B) : checked B :=
  match m with
  | Done a => k a
  | Failed f => Failed f
  end.

Notation "x <~ m ;; k" := (checked_bind m (fun x => k))
  (at level 100, m at next level, right associativity,
   format "'[v' x  <~  m  ;; '/' k ']'").

Definition run {A : Type} (r : result A) : checked A :=
  match r with
  | Ok a => Done a
  | Err e => Failed (RunError e)
  end.

(** [assert(cond)]; without effect when assertions are compiled out. *)
Definition assert_ (asserts_enabled cond : bool) : checked unit :=
  if asserts_enabled && negb cond then Failed AssertionFailed else Done tt.

Module ProverInstance.
Section ProverInstance.
Context {F : FieldElement}.

(** The members of [Instance] that [ProtoGalaxyProver_] reads:
    [prover_polynomials], one column per entity, [relation_parameters] and
    [folding_params.gate_separation_challenges]. *)
Record Instance : Type := {
  prover_polynomials : list (list FF);
  relation_parameters : RelationParameters;
  gate_separation_challenges : list FF
}.
End ProverInstance.
End ProverInstance.

Section Perturbator.
Context {F : FieldElement}.
Local Open Scope FF_scope.

(** The number of entities of the flavor: the size of [RowEvaluations]
    (the flavor headers are not part of the sources). *)
Variable NUM_ALL_ENTITIES : nat.

(** [compute_full_honk_relation_row_value], declared at lines 61-63 and
    defined elsewhere. *)
Variable compute_full_honk_relation_row_value :
  list FF -> FF -> RelationParameters -> FF.

(** Modelled from the spec: [numeric::get_msb], which is not part of the
    sources; [t = log2(instance_size)], the index of the most significant
    bit. *)
Definition get_msb (n : nat) : nat := Nat.log2 n.

(** [get_execution_row], lines 43-52.  The state of the loop is
    [row_evals] and [idx]. *)
Definition get_execution_row (accumulator : ProverInstance.Instance) (row : nat)
    : result (list FF) :=
  let row_evals := vec_new NUM_ALL_ENTITIES 0 in
  let idx := 0%nat in
  st <- for_each (ProverInstance.prover_polynomials accumulator)
          (fun poly st =>
             x <- vec_get poly row ;;
             row_evals <- vec_set (fst st) (snd st) x ;;
             Ok (row_evals, (snd st + 1)%nat))
          (row_evals, idx) ;;
  Ok (fst st).

(** [compute_perturbator], lines 107-125; [info] only logs. *)
Definition compute_perturbator (asserts_enabled : bool) (fuel : nat)
    (accumulator : ProverInstance.Instance) (deltas : list FF) (alpha : FF)
    : checked (list FF) :=
  poly0 <~ run (vec_get (ProverInstance.prover_polynomials accumulator) 0%nat) ;;
  let instance_size := length poly0 in
  let log_instance_size := get_msb instance_size in
  _ <~ assert_ asserts_enabled (bool_decide (length deltas = log_instance_size)) ;;
  let full_honk_evaluations := vec_new instance_size 0 in
  full_honk_evaluations <~
    run (for_loop 0 instance_size 1
           (fun idx full_honk_evaluations =>
              row_evaluations <- get_execution_row accumulator idx ;;
              let full_honk_at_row :=
                compute_full_honk_relation_row_value row_evaluations alpha
                  (ProverInstance.relation_parameters accumulator) in
              vec_set full_honk_evaluations idx full_honk_at_row)
           full_honk_evaluations) ;;
  let betas := ProverInstance.gate_separation_challenges accumulator in
  _ <~ assert_ asserts_enabled (bool_decide (length betas = log_instance_size)) ;;
  run (construct_perturbator_coeffs fuel betas deltas full_honk_evaluations).
End Perturbator.

(** ** [ZeroMorphTest::Phi] (zeromorph.test.cpp, lines 17-25) *)

Module ZeroMorphTest.
Section ZeroMorphTest.
Context {F : FieldElement}.
Local Open Scope FF_scope.

(** [1 << subscript] on the 32-bit [int] literal [1]: a power of two as
    long as it fits. *)
Definition shift_one (subscript : nat) : option nat :=
  if decide (subscript <= 30)%nat then Some (2 ^ subscript)%nat else None.

(** [Phi]: the loop adds [challenge.pow(idx)] for [idx = 0 .. length - 1];
    it touches no vector. *)
Definition Phi (challenge : FF) (subscript : nat) : option FF :=
  match shift_one subscript with
  | Some length =>
      Some (foldl (fun result idx => result + FF_pow challenge idx) 0 (seq 0 length))
  | None => None
  end.
End ZeroMorphTest.
End ZeroMorphTest.

(** ** Sample inputs over the BN254 scalar field *)

Module Sample.
Import Bn254.

(** Two polynomials of size 4, two gate separation challenges. *)
Definition accumulator : ProverInstance.Instance (F := Fr) := {|
  ProverInstance.prover_polynomials :=
    [map reduce [1; 2; 3; 4]%Z; map reduce [5; 6; 7; 8]%Z];
  ProverInstance.relation_parameters := Scenario.lookup_parameters;
  ProverInstance.gate_separation_challenges := map reduce [2; 3]%Z
|}.

(** A stand-in for [compute_full_honk_relation_row_value]: the first
    entity plus [alpha] times the second. *)
Definition row_value (row_evaluations : list fr) (alpha : fr)
    (relation_parameters : RelationParameters (F := Fr)) : fr :=
  fr_add (nth 0 row_evaluations (reduce 0))
    (fr_mul alpha (nth 1 row_evaluations (reduce 0))).

(** The row of [Scenario.lookup_row] (numerator 120, denominator 10) with
    [z_lookup = 1] and [z_lookup_shift = 12]. *)
Definition satisfied_row : AllEntities (F := Fr) := {|
  w_l := reduce 1; w_r := reduce 0; w_o := reduce 0;
  w_l_shift := reduce 0; w_r_shift := reduce 0; w_o_shift := reduce 0;
  table_1 := reduce 1; table_2 := reduce 0; table_3 := reduce 0; table_4 := reduce 0;
  table_1_shift := reduce 0; table_2_shift := reduce 0;
  table_3_shift := reduce 0; table_4_shift := reduce 0;
  q_o := reduce 0; q_r := reduce 0; q_m := reduce 0; q_c := reduce 0;
  q_lookup := reduce 1;
  sorted_accum := reduce 1; sorted_accum_shift := reduce 0;
  z_lookup := reduce 1; z_lookup_shift := reduce 12;
  lagrange_first := reduce 0; lagrange_last := reduce 0
|}.
End Sample.

(** * Properties *)

(** ** Vectors and loops *)

Section VectorFacts.
Context {A : Type}.
Implicit Types (v src dst row : list A) (m : list (list A)).

Lemma vec_get_ok v i x : v !! i = Some x -> vec_get v i = Ok x.
Proof. unfold vec_get. now intros ->. Qed.

Lemma vec_get_oob v i : length v <= i -> vec_get v i = Err OutOfBounds.
Proof. intros H. unfold vec_get. now rewrite lookup_ge_None_2. Qed.

Lemma vec_set_ok v i x : i < length v -> vec_set v i x = Ok (<[i := x]> v).
Proof. intros H. unfold vec_set. now rewrite decide_True. Qed.

Lemma vec_set_oob v i x : length v <= i -> vec_set v i x = Err OutOfBounds.
Proof. intros H. unfold vec_set. rewrite decide_False; [done | lia]. Qed.

Lemma vec_copy_ok src dst :
  length src <= length dst -> vec_copy src dst = Ok (src ++ drop (length src) dst).
Proof. intros H. unfold vec_copy. now rewrite decide_True. Qed.
End VectorFacts.

Lemma vec2_get_ok {A : Type} (m : list (list A)) i j row x :
  m !! i = Some row -> row !! j = Some x -> vec2_get m i j = Ok x.
Proof.
  intros Hi Hj. unfold vec2_get.
  rewrite (vec_get_ok _ _ _ Hi); simpl. now apply vec_get_ok.
Qed.

Lemma vec2_set_ok {A : Type} (m : list (list A)) i j row x :
  m !! i = Some row -> j < length row ->
  vec2_set m i j x = Ok (<[i := <[j := x]> row]> m).
Proof.
  intros Hi Hj. unfold vec2_set.
  rewrite (vec_get_ok _ _ _ Hi); simpl.
  rewrite vec_set_ok by done; simpl.
  apply vec_set_ok. now apply lookup_lt_Some in Hi.
Qed.

Section LoopFacts.
Context {S : Type}.

(** The invariant rule of [for_iter]: [Inv j] holds of the state before
    iteration [j]. *)
Lemma for_iter_invariant (Inv : nat -> S -> Prop) n i0 step body s :
  Inv 0 s ->
  (forall j s1, j < n -> Inv j s1 ->
     exists s2, body (i0 + j * step) s1 = Ok s2 /\ Inv (Datatypes.S j) s2) ->
  exists s', for_iter n i0 step body s = Ok s' /\ Inv n s'.
Proof.
  revert Inv i0 s. induction n as [|n IH]; intros Inv i0 s H0 Hstep.
  - exists s. now split.
  - destruct (Hstep 0 s ltac:(lia) H0) as (s1 & Hb & H1).
    replace (i0 + 0 * step) with i0 in Hb by lia.
    destruct (IH (fun j => Inv (Datatypes.S j)) (i0 + step) s1 H1) as (s' & Hrun & Hn).
    + intros j s2 Hj Hinv.
      destruct (Hstep (Datatypes.S j) s2 ltac:(lia) Hinv) as (s3 & Hb3 & H3).
      exists s3. split; [|done].
      rewrite <- Hb3. f_equal. lia.
    + exists s'. split; [|done]. simpl. rewrite Hb. simpl. exact Hrun.
Qed.

Lemma trip_count_unit start stop : trip_count start stop 1 = stop - start.
Proof. unfold trip_count. rewrite Nat.add_0_r. apply Nat.div_1_r. Qed.

Lemma trip_count_pairs m : trip_count 0 (2 * m) 2 = m.
Proof.
  unfold trip_count. replace (2 * m - 0 + (2 - 1)) with (1 + m * 2) by lia.
  rewrite Nat.div_add by lia. reflexivity.
Qed.
End LoopFacts.

(** ** Sample runs over the BN254 scalar field *)

Example perturbator_sample :
  construct_perturbator_coeffs (F := Bn254.Fr) 3
    (map Bn254.reduce [2; 3; 5]%Z) (map Bn254.reduce [7; 11; 13]%Z)
    (map Bn254.reduce [1; 2; 3; 4; 5; 6; 7; 8]%Z)
  = Ok (map Bn254.reduce [468; 3652; 9407; 8008]%Z).
Proof. vm_compute. reflexivity. Qed.

(* An odd number of rows: the last iteration reads past the end. *)
Example perturbator_odd_width :
  construct_perturbator_coeffs (F := Bn254.Fr) 3
    (map Bn254.reduce [2; 3; 5]%Z) (map Bn254.reduce [7; 11; 13]%Z)
    (map Bn254.reduce [1; 2; 3; 4; 5; 6; 7]%Z)
  = Err OutOfBounds.
Proof. vm_compute. reflexivity. Qed.

(* Fewer nested calls than levels. *)
Example perturbator_short_fuel :
  construct_perturbator_coeffs (F := Bn254.Fr) 2
    (map Bn254.reduce [2; 3; 5]%Z) (map Bn254.reduce [7; 11; 13]%Z)
    (map Bn254.reduce [1; 2; 3; 4; 5; 6; 7; 8]%Z)
  = Err OutOfFuel.
Proof. vm_compute. reflexivity. Qed.

(* Without challenges [level] never meets [betas.size()]. *)
Example perturbator_no_challenges :
  construct_perturbator_coeffs (F := Bn254.Fr) 50 [] [] [] = Err OutOfFuel.
Proof. vm_compute. reflexivity. Qed.

Example round_challenge_pows_sample :
  compute_round_challenge_pows (F := Bn254.Fr) 5 (Bn254.reduce 3)
  = Ok (map Bn254.reduce [3; 9; 81; 6561; 43046721]%Z).
Proof. vm_compute. reflexivity. Qed.

Example convert_to_wnaf_sample :
  ECCVMSetRelationBase.convert_to_wnaf (F := Bn254.Fr) (Bn254.reduce 3) (Bn254.reduce 2)
  = Bn254.reduce 13.
Proof. vm_compute. reflexivity. Qed.

(** ** Round-challenge powers *)

Section RoundChallengePows.
Context {F : FieldElement}.
Local Open Scope FF_scope.
Add Ring FF_ring_pows : FF_ring.

Lemma FF_pow_add (x : FF) (n m : nat) :
  FF_pow x (n + m) = FF_pow x n * FF_pow x m.
Proof. induction n as [|n IH]; simpl; [|rewrite IH]; ring. Qed.

Lemma iter_sqr_pow (x : FF) (i : nat) :
  Nat.iter i FF_sqr x = FF_pow x (2 ^ i).
Proof.
  induction i as [|i IH].
  - simpl. ring.
  - rewrite Nat.iter_succ, IH, FF_sqr_mul, <- FF_pow_add.
    f_equal. rewrite Nat.pow_succ_r'. lia.
Qed.

(** What the loop of [compute_round_challenge_pows] leaves in [pows]:
    cell [i] holds the challenge squared [i] times. *)
Lemma compute_round_challenge_pows_run (t : nat) (delta : FF) :
  (1 <= t)%nat ->
  exists pows, compute_round_challenge_pows t delta = Ok pows
    /\ length pows = t
    /\ forall i, (i < t)%nat -> pows !! i = Some (Nat.iter i FF_sqr delta).
Proof.
  intros Ht. unfold compute_round_challenge_pows, vec_new.
  rewrite vec_set_ok by (rewrite length_replicate; lia). simpl.
  unfold for_loop. rewrite trip_count_unit.
  destruct (for_iter_invariant
    (fun j s => length s = t /\
                forall i, (i <= j)%nat -> s !! i = Some (Nat.iter i FF_sqr delta))
    (t - 1) 1 1
    (fun i pows => prev <- vec_get pows (i - 1)%nat ;; vec_set pows i (FF_sqr prev))
    (<[0%nat := delta]> (replicate t 0))) as (pows & Hrun & Hlen & Hcells).
  - split.
    + now rewrite length_insert, length_replicate.
    + intros i Hi. assert (i = 0%nat) as -> by lia.
      rewrite list_lookup_insert_eq by (rewrite length_replicate; lia). done.
  - intros j s Hj [Hlen Hcells]. cbv beta.
    replace (1 + j * 1)%nat with (Datatypes.S j) by lia.
    replace (Datatypes.S j - 1)%nat with j by lia.
    rewrite (vec_get_ok _ _ _ (Hcells j ltac:(lia))). simpl.
    rewrite vec_set_ok by lia.
    eexists; split; [done|]. split.
    + now rewrite length_insert.
    + intros i Hi. destruct (decide (i = Datatypes.S j)) as [->|Hne].
      * rewrite list_lookup_insert_eq by lia. done.
      * rewrite list_lookup_insert_ne by lia. apply Hcells. lia.
  - exists pows. split; [done|]. split; [done|].
    intros i Hi. apply Hcells. lia.
Qed.
End RoundChallengePows.

(** ** The leaf level *)

Section LeafLevel.
Context {F : FieldElement}.
Local Open Scope FF_scope.
Add Ring FF_ring_leaf : FF_ring.

Lemma half_double (j : nat) : (j * 2 / 2 = j)%nat.
Proof. apply Nat.div_mul. lia. Qed.

(** One iteration of the loop of [first_level_coeffs] on a cell that still
    holds its initial contents. *)
Lemma first_level_body_run (betas deltas v : list FF) (b0 d0 e0 e1 : FF)
    (j : nat) (s : list (list FF)) :
  betas !! 0%nat = Some b0 -> deltas !! 0%nat = Some d0 ->
  v !! (j * 2)%nat = Some e0 -> v !! (j * 2 + 1)%nat = Some e1 ->
  s !! j = Some [0; 0] ->
  (e0' <- vec_get v (j * 2)%nat ;;
   e1' <- vec_get v (j * 2 + 1)%nat ;;
   beta <- vec_get betas 0%nat ;;
   s' <- vec2_set s (j * 2 / 2)%nat 0%nat (e0' + e1' * beta) ;;
   e1'' <- vec_get v (j * 2 + 1)%nat ;;
   delta <- vec_get deltas 0%nat ;;
   vec2_set s' (j * 2 / 2)%nat 1%nat (e1'' * delta))
  = Ok (<[j := leaf_pair b0 d0 e0 e1]> s).
Proof.
  intros Hb Hd He0 He1 Hs.
  rewrite half_double.
  rewrite (vec_get_ok _ _ _ He0); simpl.
  rewrite (vec_get_ok _ _ _ He1); simpl.
  rewrite (vec_get_ok _ _ _ Hb); simpl.
  rewrite (vec2_set_ok _ _ _ _ _ Hs) by (simpl; lia); simpl.
  rewrite (vec_get_ok _ _ _ Hd); simpl.
  assert (j < length s)%nat as Hj by now apply lookup_lt_Some in Hs.
  erewrite vec2_set_ok; [| now apply list_lookup_insert_eq | simpl; lia].
  rewrite list_insert_insert_eq. simpl. unfold leaf_pair.
  do 3 f_equal; [ring | f_equal; ring].
Qed.

Lemma first_level_coeffs_run (betas deltas v : list FF) (b0 d0 : FF) (m : nat) :
  betas !! 0%nat = Some b0 -> deltas !! 0%nat = Some d0 ->
  length v = (2 * m)%nat ->
  exists L, first_level_coeffs betas deltas v = Ok L
    /\ length L = m
    /\ forall i, (i < m)%nat ->
         L !! i = Some (leaf_pair b0 d0 (nth (2 * i) v 0) (nth (2 * i + 1) v 0)).
Proof.
  intros Hb Hd Hlen. unfold first_level_coeffs, for_loop, vec_new.
  rewrite Hlen, trip_count_pairs.
  replace (2 * m / 2)%nat with m by (rewrite Nat.mul_comm, half_double; done).
  match goal with |- exists L, for_iter _ _ _ ?body ?s0 = _ /\ _ =>
    destruct (for_iter_invariant
      (fun j s => length s = m
         /\ (forall i, (i < j)%nat ->
               s !! i = Some (leaf_pair b0 d0 (nth (2 * i) v 0) (nth (2 * i + 1) v 0)))
         /\ (forall i, (j <= i < m)%nat -> s !! i = Some [0; 0]))
      m 0%nat 2%nat body s0) as (L & Hrun & HL & Hdone & _)
  end.
  - split; [apply length_replicate|]. split; [lia|].
    intros i Hi. apply lookup_replicate_2. lia.
  - intros j s Hj (Hs & Hdone & Htodo). cbv beta zeta.
    replace (0 + j * 2)%nat with (j * 2)%nat by lia.
    destruct (lookup_lt_is_Some_2 v (j * 2)%nat ltac:(lia)) as [e0 He0].
    destruct (lookup_lt_is_Some_2 v (j * 2 + 1)%nat ltac:(lia)) as [e1 He1].
    rewrite (first_level_body_run betas deltas v b0 d0 e0 e1 j s Hb Hd He0 He1)
      by (apply Htodo; lia).
    eexists; split; [done|]. split; [now rewrite length_insert|]. split.
    + intros i Hi. destruct (decide (i = j)) as [->|Hne].
      * rewrite list_lookup_insert_eq by lia.
        replace (2 * j)%nat with (j * 2)%nat by lia.
        now rewrite (nth_lookup_Some _ _ _ _ He0), (nth_lookup_Some _ _ _ _ He1).
      * rewrite list_lookup_insert_ne by lia. apply Hdone. lia.
    + intros i Hi. rewrite list_lookup_insert_ne by lia. apply Htodo. lia.
  - exists L. split; [done|]. split; [done|]. exact Hdone.
Qed.
End LeafLevel.

(** ** One level of the tree *)

Section TreeLevel.
Context {F : FieldElement}.
Local Open Scope FF_scope.
Add Ring FF_ring_level : FF_ring.

Lemma add_at_length (coeffs : list FF) (i : nat) (x : FF) :
  length (add_at coeffs i x) = length coeffs.
Proof. unfold add_at. destruct (coeffs !! i); [apply length_insert | done]. Qed.

Lemma combine_step_length (bk dk : FF) (right result : list FF) (d : nat) :
  length (combine_step bk dk right result d) = length result.
Proof. unfold combine_step. now rewrite !add_at_length. Qed.

Lemma combine_steps_length (bk dk : FF) (right result : list FF) (ds : list nat) :
  length (foldl (combine_step bk dk right) result ds) = length result.
Proof.
  revert result. induction ds as [|d ds IH]; intros result; simpl; [done|].
  now rewrite IH, combine_step_length.
Qed.

Lemma combine_pair_length (k : nat) (bk dk : FF) (left right : list FF) :
  length (combine_pair k bk dk left right) = (length left + 1)%nat.
Proof. unfold combine_pair. now rewrite combine_steps_length, length_app. Qed.

Lemma vec2_add_assign_run (m : list (list FF)) (i j : nat) (row : list FF) (x : FF) :
  m !! i = Some row -> (j < length row)%nat ->
  vec2_add_assign m i j x = Ok (<[i := add_at row j x]> m).
Proof.
  intros Hi Hj. unfold vec2_add_assign.
  destruct (lookup_lt_is_Some_2 row j Hj) as [c Hc].
  rewrite (vec2_get_ok _ _ _ _ _ Hi Hc); simpl.
  rewrite (vec2_set_ok _ _ _ _ _ Hi Hj).
  unfold add_at. now rewrite Hc.
Qed.

(** The body of the [d] loop of [compute_level]. *)
Lemma degree_body_run (k : nat) (betas deltas : list FF) (prev : list (list FF))
    (bk dk : FF) (node parent d : nat) (right row : list FF) (s : list (list FF)) :
  betas !! k = Some bk -> deltas !! k = Some dk ->
  prev !! (node + 1)%nat = Some right -> (d < length right)%nat ->
  s !! parent = Some row -> (d + 1 < length row)%nat ->
  (r <- vec2_get prev (node + 1)%nat d ;;
   beta <- vec_get betas k ;;
   s' <- vec2_add_assign s parent d (r * beta) ;;
   r' <- vec2_get prev (node + 1)%nat d ;;
   delta <- vec_get deltas k ;;
   vec2_add_assign s' parent (d + 1)%nat (r' * delta))
  = Ok (<[parent := combine_step bk dk right row d]> s).
Proof.
  intros Hb Hd Hright Hdr Hrow Hdrow.
  destruct (lookup_lt_is_Some_2 right d Hdr) as [r Hr].
  rewrite (vec2_get_ok _ _ _ _ _ Hright Hr); simpl.
  rewrite (vec_get_ok _ _ _ Hb); simpl.
  rewrite (vec2_add_assign_run _ _ _ _ _ Hrow) by lia; simpl.
  rewrite (vec_get_ok _ _ _ Hd); simpl.
  assert (parent < length s)%nat as Hp by now apply lookup_lt_Some in Hrow.
  erewrite vec2_add_assign_run;
    [| now apply list_lookup_insert_eq | rewrite add_at_length; lia].
  rewrite list_insert_insert_eq. unfold combine_step.
  now rewrite (nth_lookup_Some _ _ _ _ Hr).
Qed.

(** The [d] loop of [compute_level] applies [combine_step] for
    [d = 0, ..., degree - 1] to row [parent]. *)
Lemma degree_loop_run (k : nat) (betas deltas : list FF) (prev : list (list FF))
    (bk dk : FF) (node parent : nat) (right row : list FF) (s : list (list FF)) :
  betas !! k = Some bk -> deltas !! k = Some dk ->
  prev !! (node + 1)%nat = Some right -> length right = (k + 1)%nat ->
  s !! parent = Some row -> length row = (k + 1 + 1)%nat ->
  for_loop 0 (k + 1) 1
    (fun d s =>
       r <- vec2_get prev (node + 1)%nat d ;;
       beta <- vec_get betas k ;;
       s' <- vec2_add_assign s parent d (r * beta) ;;
       r' <- vec2_get prev (node + 1)%nat d ;;
       delta <- vec_get deltas k ;;
       vec2_add_assign s' parent (d + 1)%nat (r' * delta)) s
  = Ok (<[parent := foldl (combine_step bk dk right) row (seq 0 (k + 1))]> s).
Proof.
  intros Hb Hd Hright Hlr Hrow Hlrow.
  assert (parent < length s)%nat as Hp by now apply lookup_lt_Some in Hrow.
  unfold for_loop. rewrite trip_count_unit, Nat.sub_0_r.
  match goal with |- for_iter _ _ _ ?body _ = _ =>
    destruct (for_iter_invariant
      (fun d s' => s' = <[parent := foldl (combine_step bk dk right) row (seq 0 d)]> s)
      (k + 1) 0%nat 1%nat body s) as (s' & Hrun & ->)
  end.
  - simpl. symmetry. now apply list_insert_id.
  - intros d s1 Hdk ->. cbv beta.
    replace (0 + d * 1)%nat with d by lia.
    erewrite degree_body_run; try eassumption.
    + eexists; split; [done|].
      rewrite list_insert_insert_eq, seq_S, foldl_app. done.
    + lia.
    + now apply list_lookup_insert_eq.
    + rewrite combine_steps_length. lia.
  - exact Hrun.
Qed.

(** One iteration of the [node] loop of [compute_level], on a parent cell
    that still holds its initial contents. *)
Lemma compute_level_node_run (k : nat) (betas deltas : list FF)
    (prev : list (list FF)) (bk dk : FF) (j : nat) (left right : list FF)
    (s : list (list FF)) :
  betas !! k = Some bk -> deltas !! k = Some dk ->
  prev !! (j * 2)%nat = Some left -> prev !! (j * 2 + 1)%nat = Some right ->
  length left = (k + 1)%nat -> length right = (k + 1)%nat ->
  s !! j = Some (replicate (k + 1 + 1) 0) ->
  compute_level_node k betas deltas prev (j * 2) s
  = Ok (<[j := combine_pair k bk dk left right]> s).
Proof.
  intros Hb Hd Hleft Hright Hll Hlr Hs.
  assert (j < length s)%nat as Hj by now apply lookup_lt_Some in Hs.
  unfold compute_level_node. cbv zeta. rewrite half_double.
  rewrite (vec_get_ok _ _ _ Hleft); simpl.
  rewrite (vec_get_ok _ _ _ Hs); simpl.
  rewrite vec_copy_ok by (rewrite length_replicate; lia); simpl.
  rewrite vec_set_ok by done; simpl.
  rewrite Hll, drop_replicate.
  replace (k + 1 + 1 - (k + 1))%nat with 1%nat by lia.
  change (replicate 1 0) with [0].
  erewrite degree_loop_run; try eassumption.
  - now rewrite list_insert_insert_eq.
  - now apply list_lookup_insert_eq.
  - rewrite length_app, Hll. simpl. lia.
Qed.

Lemma compute_level_coeffs_run (k : nat) (betas deltas : list FF)
    (prev : list (list FF)) (bk dk : FF) (m : nat) :
  betas !! k = Some bk -> deltas !! k = Some dk ->
  length prev = (2 * m)%nat ->
  (forall v, v ∈ prev -> length v = (k + 1)%nat) ->
  exists L, compute_level_coeffs k betas deltas prev = Ok L
    /\ length L = m
    /\ forall i, (i < m)%nat ->
         L !! i = Some (combine_pair k bk dk (nth (2 * i) prev []) (nth (2 * i + 1) prev [])).
Proof.
  intros Hb Hd Hlen Hall. unfold compute_level_coeffs, for_loop, vec_new.
  rewrite Hlen, trip_count_pairs.
  replace (2 * m / 2)%nat with m by (rewrite Nat.mul_comm, half_double; done).
  match goal with |- exists L, for_iter _ _ _ ?body ?s0 = _ /\ _ =>
    destruct (for_iter_invariant
      (fun j s => length s = m
         /\ (forall i, (i < j)%nat ->
               s !! i = Some (combine_pair k bk dk (nth (2 * i) prev [])
                                (nth (2 * i + 1) prev [])))
         /\ (forall i, (j <= i < m)%nat -> s !! i = Some (replicate (k + 1 + 1) 0)))
      m 0%nat 2%nat body s0) as (L & Hrun & HL & Hdone & _)
  end.
  - split; [apply length_replicate|]. split; [lia|].
    intros i Hi. apply lookup_replicate_2. lia.
  - intros j s Hj (Hs & Hdone & Htodo).
    replace (0 + j * 2)%nat with (j * 2)%nat by lia.
    destruct (lookup_lt_is_Some_2 prev (j * 2)%nat ltac:(lia)) as [left Hleft].
    destruct (lookup_lt_is_Some_2 prev (j * 2 + 1)%nat ltac:(lia)) as [right Hright].
    rewrite (compute_level_node_run k betas deltas prev bk dk j left right s
               Hb Hd Hleft Hright).
    + eexists; split; [done|]. split; [now rewrite length_insert|]. split.
      * intros i Hi. destruct (decide (i = j)) as [->|Hne].
        -- rewrite list_lookup_insert_eq by lia.
           replace (2 * j)%nat with (j * 2)%nat by lia.
           now rewrite (nth_lookup_Some _ _ _ _ Hleft), (nth_lookup_Some _ _ _ _ Hright).
        -- rewrite list_lookup_insert_ne by lia. apply Hdone. lia.
      * intros i Hi. rewrite list_lookup_insert_ne by lia. apply Htodo. lia.
    + apply Hall. eapply list_elem_of_lookup_2. exact Hleft.
    + apply Hall. eapply list_elem_of_lookup_2. exact Hright.
    + apply Htodo. lia.
  - exists L. split; [done|]. split; [done|]. exact Hdone.
Qed.
End TreeLevel.

(** ** The recursion *)

Section Recursion.
Context {F : FieldElement}.
Local Open Scope FF_scope.
Add Ring FF_ring_recursion : FF_ring.

Lemma nth_replicate_zero (n d : nat) : nth d (replicate n (0 : FF)) 0 = 0.
Proof.
  rewrite nth_lookup. destruct (replicate n 0 !! d) as [c|] eqn:E; [|done].
  now apply lookup_replicate_1 in E as [-> _].
Qed.

Lemma add_at_zero (n i : nat) (b : FF) :
  add_at (replicate n 0) i (0 * b) = replicate n 0.
Proof.
  unfold add_at. destruct (replicate n 0 !! i) as [c|] eqn:E; [|done].
  apply lookup_replicate_1 in E as [-> _].
  replace (0 + 0 * b) with (0 : FF) by ring. apply insert_replicate.
Qed.

Lemma combine_steps_zero (bk dk : FF) (n n' : nat) (ds : list nat) :
  foldl (combine_step bk dk (replicate n' 0)) (replicate n 0) ds = replicate n 0.
Proof.
  induction ds as [|d ds IH]; simpl; [done|].
  unfold combine_step at 2. now rewrite nth_replicate_zero, !add_at_zero.
Qed.

Lemma combine_pair_zero (k : nat) (bk dk : FF) :
  combine_pair k bk dk (replicate (k + 1) 0) (replicate (k + 1) 0)
  = replicate (k + 1 + 1) 0.
Proof.
  unfold combine_pair.
  change [0] with (replicate 1 (0 : FF)). rewrite <- replicate_add.
  apply combine_steps_zero.
Qed.

Lemma leaf_pair_zero (b0 d0 : FF) : leaf_pair b0 d0 0 0 = replicate 2 0.
Proof. unfold leaf_pair. simpl. f_equal; [ring | f_equal; ring]. Qed.

Lemma elem_of_nth_lt {A : Type} (l : list A) (i : nat) (d : A) :
  (i < length l)%nat -> nth i l d ∈ l.
Proof.
  intros Hi. destruct (lookup_lt_is_Some_2 l i Hi) as [x Hx].
  rewrite (nth_lookup_Some _ _ _ _ Hx). eapply list_elem_of_lookup_2. exact Hx.
Qed.

(** From level [level] with [2^n] vectors of [level + 1] coefficients,
    and [n] challenges left, [compute_level] returns after [n] further
    calls with [level + n + 1] coefficients; zero vectors stay zero. *)
Lemma compute_level_run (n : nat) :
  forall (fuel level : nat) (betas deltas : list FF) (prev : list (list FF)),
    length betas = (level + n)%nat -> length deltas = length betas ->
    length prev = (2 ^ n)%nat ->
    (forall v, v ∈ prev -> length v = (level + 1)%nat) ->
    (n < fuel)%nat ->
    exists c, compute_level fuel level betas deltas prev = Ok c
      /\ length c = (level + n + 1)%nat
      /\ ((forall v, v ∈ prev -> v = replicate (level + 1) 0) ->
          c = replicate (level + n + 1) 0).
Proof.
  induction n as [|n IH]; intros fuel level betas deltas prev Hb Hd Hp Hall Hfuel;
    (destruct fuel as [|fuel]; [lia|]); simpl.
  - rewrite decide_True by lia.
    destruct (lookup_lt_is_Some_2 prev 0%nat ltac:(simpl in Hp; lia)) as [c Hc].
    apply list_elem_of_lookup_2 in Hc as Hin.
    exists c. rewrite (vec_get_ok _ _ _ Hc). split; [done|]. split.
    + rewrite (Hall c Hin). lia.
    + intros Hz. rewrite (Hz c Hin). f_equal. lia.
  - rewrite decide_False by lia.
    destruct (lookup_lt_is_Some_2 betas level ltac:(lia)) as [bk Hbk].
    destruct (lookup_lt_is_Some_2 deltas level ltac:(lia)) as [dk Hdk].
    rewrite Nat.pow_succ_r' in Hp.
    destruct (compute_level_coeffs_run level betas deltas prev bk dk (2 ^ n)
                Hbk Hdk Hp Hall) as (L & HrunL & HlenL & HL).
    rewrite HrunL; simpl.
    assert (forall v, v ∈ L -> exists i, (i < 2 ^ n)%nat /\
              v = combine_pair level bk dk (nth (2 * i) prev []) (nth (2 * i + 1) prev []))
      as Hshape.
    { intros v Hv. apply list_elem_of_lookup_1 in Hv as [i Hi].
      assert (i < 2 ^ n)%nat as Hlt by (apply lookup_lt_Some in Hi; lia).
      exists i. split; [done|]. rewrite (HL i Hlt) in Hi. congruence. }
    destruct (IH fuel (level + 1)%nat betas deltas L) as (c & Hrun & Hlen & Hzero);
      try lia.
    + intros v Hv. destruct (Hshape v Hv) as (i & Hi & ->).
      rewrite combine_pair_length, Hall; [done|]. apply elem_of_nth_lt. lia.
    + exists c. split; [done|]. split; [lia|].
      intros Hz. replace (level + S n + 1)%nat with (level + 1 + n + 1)%nat by lia.
      apply Hzero. intros v Hv. destruct (Hshape v Hv) as (i & Hi & ->).
      rewrite (Hz (nth (2 * i) prev [])) by (apply elem_of_nth_lt; lia).
      rewrite (Hz (nth (2 * i + 1) prev [])) by (apply elem_of_nth_lt; lia).
      apply combine_pair_zero.
Qed.

Lemma construct_perturbator_coeffs_run (t fuel : nat)
    (betas deltas full_honk_evaluations : list FF) :
  (1 <= t)%nat -> length betas = t -> length deltas = t ->
  length full_honk_evaluations = (2 ^ t)%nat -> (t <= fuel)%nat ->
  exists c, construct_perturbator_coeffs fuel betas deltas full_honk_evaluations = Ok c
    /\ length c = (t + 1)%nat
    /\ ((forall e, e ∈ full_honk_evaluations -> e = 0) -> c = replicate (t + 1) 0).
Proof.
  intros Ht Hb Hd He Hfuel. destruct t as [|n]; [lia|].
  destruct (lookup_lt_is_Some_2 betas 0%nat ltac:(lia)) as [b0 Hb0].
  destruct (lookup_lt_is_Some_2 deltas 0%nat ltac:(lia)) as [d0 Hd0].
  rewrite Nat.pow_succ_r' in He.
  destruct (first_level_coeffs_run betas deltas full_honk_evaluations b0 d0 (2 ^ n)
              Hb0 Hd0 He) as (L & HrunL & HlenL & HL).
  assert (forall v, v ∈ L -> exists i, (i < 2 ^ n)%nat /\
            v = leaf_pair b0 d0 (nth (2 * i) full_honk_evaluations 0)
                  (nth (2 * i + 1) full_honk_evaluations 0)) as Hshape.
  { intros v Hv. apply list_elem_of_lookup_1 in Hv as [i Hi].
    assert (i < 2 ^ n)%nat as Hlt by (apply lookup_lt_Some in Hi; lia).
    exists i. split; [done|]. rewrite (HL i Hlt) in Hi. congruence. }
  unfold construct_perturbator_coeffs. rewrite HrunL; simpl.
  destruct (compute_level_run n fuel 1%nat betas deltas L) as (c & Hrun & Hlen & Hzero);
    try lia.
  - intros v Hv. now destruct (Hshape v Hv) as (i & Hi & ->).
  - exists c. split; [done|]. split; [lia|].
    intros Hz. replace (S n + 1)%nat with (1 + n + 1)%nat by lia.
    apply Hzero. intros v Hv. destruct (Hshape v Hv) as (i & Hi & ->).
    rewrite (Hz (nth (2 * i) full_honk_evaluations 0)) by (apply elem_of_nth_lt; lia).
    rewrite (Hz (nth (2 * i + 1) full_honk_evaluations 0)) by (apply elem_of_nth_lt; lia).
    apply leaf_pair_zero.
Qed.
End Recursion.

Section RoundChallengePowsClaims.
Context {F : FieldElement}.
Local Open Scope FF_scope.
Add Ring FF_ring_pows_claims : FF_ring.

(** C1 (amended): for every [log_instance_size = t >= 1] and every
    challenge δ, [compute_round_challenge_pows t δ] returns a vector of
    [t] elements whose element at index [i] is δ raised to the power
    [2^i], that is [[δ, δ^2, δ^4, ..., δ^(2^(t-1))]]. *)
Theorem compute_round_challenge_pows_squarings (t : nat) (delta : FF) :
  (1 <= t)%nat ->
  exists pows, compute_round_challenge_pows t delta = Ok pows
    /\ length pows = t
    /\ forall i, (i < t)%nat -> pows !! i = Some (FF_pow delta (2 ^ i)).
Proof.
  intros Ht.
  destruct (compute_round_challenge_pows_run t delta Ht) as (pows & Hrun & Hlen & Hcells).
  exists pows. split; [done|]. split; [done|].
  intros i Hi. rewrite <- iter_sqr_pow. now apply Hcells.
Qed.

(** C2: [compute_round_challenge_pows 4 δ] is exactly
    [[δ, δ^2, δ^4, δ^8]], and every element after the first is the square
    of the element before it. *)
Theorem compute_round_challenge_pows_4 (delta : FF) :
  compute_round_challenge_pows 4 delta
    = Ok [delta; FF_pow delta 2; FF_pow delta 4; FF_pow delta 8]
  /\ compute_round_challenge_pows 4 delta
    = Ok [delta; FF_sqr delta; FF_sqr (FF_sqr delta); FF_sqr (FF_sqr (FF_sqr delta))].
Proof.
  assert (compute_round_challenge_pows 4 delta
    = Ok [delta; FF_sqr delta; FF_sqr (FF_sqr delta); FF_sqr (FF_sqr (FF_sqr delta))])
    as Hrun by reflexivity.
  split; [|exact Hrun].
  assert (FF_sqr delta = FF_pow delta 2) as E2
    by (rewrite !FF_sqr_mul; simpl; ring).
  assert (FF_sqr (FF_sqr delta) = FF_pow delta 4) as E4
    by (rewrite !FF_sqr_mul; simpl; ring).
  assert (FF_sqr (FF_sqr (FF_sqr delta)) = FF_pow delta 8) as E8
    by (rewrite !FF_sqr_mul; simpl; ring).
  now rewrite Hrun, E8, E4, E2.
Qed.

(** C10: [compute_round_challenge_pows] is safe exactly under the
    precondition [log_instance_size >= 1].  For [t >= 1] the run ends
    without any access outside of a vector (an [Ok] outcome) and returns
    [t] elements; for [t = 0] the unconditional write to [pows[0]] is an
    access outside of the empty vector. *)
Theorem compute_round_challenge_pows_bounds (t : nat) (delta : FF) :
  ((1 <= t)%nat ->
     exists pows, compute_round_challenge_pows t delta = Ok pows /\ length pows = t)
  /\ compute_round_challenge_pows 0 delta = Err OutOfBounds
  /\ vec_set (vec_new 0 0) 0%nat delta = Err OutOfBounds.
Proof.
  split; [|split; reflexivity].
  intros Ht.
  destruct (compute_round_challenge_pows_run t delta Ht) as (pows & Hrun & Hlen & _).
  now exists pows.
Qed.
End RoundChallengePowsClaims.

(** C1 (as stated) fails: over the BN254 scalar field, for [t = 3] and
    δ = 2 the function returns [[2, 4, 16]]; the element at index 2 is
    16 = δ^4, whereas δ^(2+1) = 8.  So it is not the case that every
    element at an index [i < 3] is δ^(i+1). *)
Lemma compute_round_challenge_pows_not_consecutive :
  compute_round_challenge_pows (F := Bn254.Fr) 3 (Bn254.reduce 2)
    = Ok [Bn254.reduce 2; Bn254.reduce 4; Bn254.reduce 16]
  /\ FF_pow (F := Bn254.Fr) (Bn254.reduce 2) (2 + 1) = Bn254.reduce 8
  /\ ~ (forall pows i,
          compute_round_challenge_pows (F := Bn254.Fr) 3 (Bn254.reduce 2) = Ok pows ->
          i < 3 ->
          pows !! i = Some (FF_pow (F := Bn254.Fr) (Bn254.reduce 2) (i + 1))).
Proof.
  split; [vm_compute; reflexivity|]. split; [vm_compute; reflexivity|].
  intros H.
  specialize (H [Bn254.reduce 2; Bn254.reduce 4; Bn254.reduce 16] 2
                ltac:(vm_compute; reflexivity) ltac:(lia)).
  apply (f_equal (fun o => match o with Some x => Bn254.fr_val x | None => 0%Z end)) in H.
  vm_compute in H. discriminate H.
Qed.

Lemma compute_round_challenge_pows_squarings_witness :
  exists pows, compute_round_challenge_pows (F := Bn254.Fr) 3 (Bn254.reduce 2) = Ok pows
    /\ length pows = 3
    /\ forall i, i < 3 -> pows !! i = Some (FF_pow (F := Bn254.Fr) (Bn254.reduce 2) (2 ^ i)).
Proof. apply (compute_round_challenge_pows_squarings (F := Bn254.Fr) 3 (Bn254.reduce 2)). lia. Defined.

Lemma compute_round_challenge_pows_bounds_witness :
  exists pows, compute_round_challenge_pows (F := Bn254.Fr) 3 (Bn254.reduce 2) = Ok pows
    /\ length pows = 3.
Proof. apply (proj1 (compute_round_challenge_pows_bounds (F := Bn254.Fr) 3 (Bn254.reduce 2))). lia. Defined.

(** ** The perturbator *)

Section PerturbatorClaims.
Context {F : FieldElement}.
Local Open Scope FF_scope.
Add Ring FF_ring_perturbator : FF_ring.

(** C3: for an even number [n >= 2] of full relation values [v] and
    non-empty [betas] and [deltas], the leaf level of
    [construct_perturbator_coeffs] produces [n / 2] pairs, pair [i] being
    [[v_{2i} + betas[0] * v_{2i+1}, deltas[0] * v_{2i+1}]]; these pairs are
    what [compute_level] is then called with, at level 1. *)
Theorem first_level_coeffs_pairs (betas deltas v : list FF) (b0 d0 : FF) (m : nat) :
  betas !! 0%nat = Some b0 -> deltas !! 0%nat = Some d0 ->
  length v = (2 * m)%nat -> (2 <= length v)%nat ->
  exists L, first_level_coeffs betas deltas v = Ok L
    /\ length L = (length v / 2)%nat
    /\ (forall i v0 v1, v !! (2 * i)%nat = Some v0 -> v !! (2 * i + 1)%nat = Some v1 ->
          L !! i = Some [v0 + b0 * v1; d0 * v1])
    /\ (forall fuel, construct_perturbator_coeffs fuel betas deltas v
          = compute_level fuel 1 betas deltas L).
Proof.
  intros Hb Hd Hlen _.
  destruct (first_level_coeffs_run betas deltas v b0 d0 m Hb Hd Hlen)
    as (L & Hrun & HlenL & HL).
  exists L. split; [done|]. split; [|split].
  - rewrite Hlen, Nat.mul_comm, half_double. done.
  - intros i v0 v1 H0 H1.
    assert (i < m)%nat as Hi by (apply lookup_lt_Some in H1; lia).
    rewrite (HL i Hi), (nth_lookup_Some _ _ _ _ H0), (nth_lookup_Some _ _ _ _ H1).
    reflexivity.
  - intros fuel. unfold construct_perturbator_coeffs. now rewrite Hrun.
Qed.

(** C4: at a level [k] with [1 <= k < t], [compute_level] turns an even
    number of coefficient vectors of length [k + 1] into half as many
    vectors of length [k + 2] and goes on with them at level [k + 1]; the
    vector made of the pair [(left, right)] is [left] extended with a zero
    coefficient and then, for every degree [d] from [0] to [k], coefficient
    [d] increased by [right[d] * betas[k]] and coefficient [d + 1] by
    [right[d] * deltas[k]] (this is [combine_pair]). *)
Theorem compute_level_coeffs_pairs (t k : nat) (betas deltas : list FF)
    (prev : list (list FF)) (m : nat) :
  length betas = t -> length deltas = t -> (1 <= k < t)%nat ->
  length prev = (2 * m)%nat -> Forall (fun v => length v = (k + 1)%nat) prev ->
  exists L, compute_level_coeffs k betas deltas prev = Ok L
    /\ length L = (length prev / 2)%nat
    /\ Forall (fun v => length v = (k + 2)%nat) L
    /\ (forall i left right,
          prev !! (2 * i)%nat = Some left -> prev !! (2 * i + 1)%nat = Some right ->
          L !! i = Some (combine_pair k (nth k betas 0) (nth k deltas 0) left right))
    /\ (forall fuel, compute_level (S fuel) k betas deltas prev
          = compute_level fuel (k + 1) betas deltas L).
Proof.
  intros Hb Hd Hk Hlen Hall.
  destruct (lookup_lt_is_Some_2 betas k ltac:(lia)) as [bk Hbk].
  destruct (lookup_lt_is_Some_2 deltas k ltac:(lia)) as [dk Hdk].
  rewrite (nth_lookup_Some _ _ _ _ Hbk), (nth_lookup_Some _ _ _ _ Hdk).
  rewrite Forall_forall in Hall.
  destruct (compute_level_coeffs_run k betas deltas prev bk dk m Hbk Hdk Hlen Hall)
    as (L & Hrun & HlenL & HL).
  exists L. split; [done|]. split; [|split; [|split]].
  - rewrite Hlen, Nat.mul_comm, half_double. done.
  - rewrite Forall_forall. intros v Hv.
    apply list_elem_of_lookup_1 in Hv as [i Hi].
    assert (i < m)%nat as Hlt by (apply lookup_lt_Some in Hi; lia).
    rewrite (HL i Hlt) in Hi. injection Hi as <-.
    rewrite combine_pair_length, Hall; [lia|]. apply elem_of_nth_lt. lia.
  - intros i left right H0 H1.
    assert (i < m)%nat as Hi by (apply lookup_lt_Some in H1; lia).
    now rewrite (HL i Hi), (nth_lookup_Some _ _ _ _ H0), (nth_lookup_Some _ _ _ _ H1).
  - intros fuel. simpl. rewrite decide_False by lia. now rewrite Hrun.
Qed.

(** C5: for [t >= 1], [betas] and [deltas] of length [t] and [2^t] full
    relation values, [construct_perturbator_coeffs] returns, and returns
    [t + 1] coefficients: [t] nested calls of [compute_level] suffice. *)
Theorem construct_perturbator_coeffs_terminates (t fuel : nat)
    (betas deltas full_honk_evaluations : list FF) :
  (1 <= t)%nat -> length betas = t -> length deltas = t ->
  length full_honk_evaluations = (2 ^ t)%nat -> (t <= fuel)%nat ->
  exists coeffs,
    construct_perturbator_coeffs fuel betas deltas full_honk_evaluations = Ok coeffs
    /\ length coeffs = (t + 1)%nat.
Proof.
  intros Ht Hb Hd He Hfuel.
  destruct (construct_perturbator_coeffs_run t fuel betas deltas full_honk_evaluations
              Ht Hb Hd He Hfuel) as (c & Hrun & Hlen & _).
  now exists c.
Qed.

(** C6: for [t >= 1] and [betas] and [deltas] of length [t], whatever their
    values, the perturbator of [2^t] zero relation values is the zero
    vector of length [t + 1]; for [t = 3] this is [[0, 0, 0, 0]]. *)
Theorem construct_perturbator_coeffs_zero (t fuel : nat) (betas deltas : list FF) :
  (1 <= t)%nat -> length betas = t -> length deltas = t -> (t <= fuel)%nat ->
  construct_perturbator_coeffs fuel betas deltas (replicate (2 ^ t) 0)
    = Ok (replicate (t + 1) 0)
  /\ (t = 3%nat ->
      construct_perturbator_coeffs fuel betas deltas [0; 0; 0; 0; 0; 0; 0; 0]
        = Ok [0; 0; 0; 0]).
Proof.
  intros Ht Hb Hd Hfuel.
  assert (construct_perturbator_coeffs fuel betas deltas (replicate (2 ^ t) 0)
            = Ok (replicate (t + 1) 0)) as Hgen.
  { destruct (construct_perturbator_coeffs_run t fuel betas deltas (replicate (2 ^ t) 0)
                Ht Hb Hd (length_replicate _ _) Hfuel) as (c & Hrun & _ & Hzero).
    rewrite Hrun. f_equal. apply Hzero.
    intros e He. now apply elem_of_replicate in He as [-> _]. }
  split; [exact Hgen|].
  intros ->. exact Hgen.
Qed.
End PerturbatorClaims.

Lemma first_level_coeffs_pairs_witness :
  exists L,
    first_level_coeffs (F := Bn254.Fr) [Bn254.reduce 2] [Bn254.reduce 7]
      [Bn254.reduce 1; Bn254.reduce 2; Bn254.reduce 3; Bn254.reduce 4] = Ok L
    /\ length L = 2
    /\ L !! 0 = Some [Bn254.reduce 5; Bn254.reduce 14]
    /\ L !! 1 = Some [Bn254.reduce 11; Bn254.reduce 28].
Proof.
  destruct (first_level_coeffs_pairs (F := Bn254.Fr) [Bn254.reduce 2] [Bn254.reduce 7]
              [Bn254.reduce 1; Bn254.reduce 2; Bn254.reduce 3; Bn254.reduce 4]
              (Bn254.reduce 2) (Bn254.reduce 7) 2
              eq_refl eq_refl eq_refl ltac:(simpl; lia)) as (L & Hrun & Hlen & HL & _).
  exists L. split; [exact Hrun|]. split; [exact Hlen|]. split.
  - exact (HL 0 (Bn254.reduce 1) (Bn254.reduce 2) eq_refl eq_refl).
  - exact (HL 1 (Bn254.reduce 3) (Bn254.reduce 4) eq_refl eq_refl).
Defined.

Lemma compute_level_coeffs_pairs_witness :
  exists L,
    compute_level_coeffs (F := Bn254.Fr) 1
      [Bn254.reduce 2; Bn254.reduce 3] [Bn254.reduce 7; Bn254.reduce 11]
      [[Bn254.reduce 5; Bn254.reduce 14]; [Bn254.reduce 11; Bn254.reduce 28]] = Ok L
    /\ length L = 1
    /\ L !! 0 = Some [Bn254.reduce 38; Bn254.reduce 219; Bn254.reduce 308].
Proof.
  destruct (compute_level_coeffs_pairs (F := Bn254.Fr) 2 1
              [Bn254.reduce 2; Bn254.reduce 3] [Bn254.reduce 7; Bn254.reduce 11]
              [[Bn254.reduce 5; Bn254.reduce 14]; [Bn254.reduce 11; Bn254.reduce 28]] 1
              eq_refl eq_refl ltac:(lia) eq_refl
              ltac:(repeat constructor)) as (L & Hrun & Hlen & _ & HL & _).
  exists L. split; [exact Hrun|]. split; [exact Hlen|].
  exact (HL 0 [Bn254.reduce 5; Bn254.reduce 14] [Bn254.reduce 11; Bn254.reduce 28]
           eq_refl eq_refl).
Defined.

Lemma construct_perturbator_coeffs_terminates_witness :
  exists coeffs,
    construct_perturbator_coeffs (F := Bn254.Fr) 3
      [Bn254.reduce 2; Bn254.reduce 3; Bn254.reduce 5]
      [Bn254.reduce 7; Bn254.reduce 11; Bn254.reduce 13]
      (map Bn254.reduce [1; 2; 3; 4; 5; 6; 7; 8]%Z) = Ok coeffs
    /\ length coeffs = 4.
Proof.
  apply (construct_perturbator_coeffs_terminates (F := Bn254.Fr) 3 3);
    [lia | reflexivity | reflexivity | reflexivity | lia].
Defined.

Lemma construct_perturbator_coeffs_zero_witness :
  construct_perturbator_coeffs (F := Bn254.Fr) 3
    [Bn254.reduce 2; Bn254.reduce 3; Bn254.reduce 5]
    [Bn254.reduce 7; Bn254.reduce 11; Bn254.reduce 13]
    (replicate 8 (Bn254.reduce 0))
  = Ok [Bn254.reduce 0; Bn254.reduce 0; Bn254.reduce 0; Bn254.reduce 0].
Proof.
  apply (construct_perturbator_coeffs_zero (F := Bn254.Fr) 3 3
           [Bn254.reduce 2; Bn254.reduce 3; Bn254.reduce 5]
           [Bn254.reduce 7; Bn254.reduce 11; Bn254.reduce 13]);
    [lia | reflexivity | reflexivity | lia | reflexivity].
Defined.

(** ** Relations *)

Section RelationClaims.
Context {F : FieldElement}.
Local Open Scope FF_scope.
Add Ring FF_ring_relations : FF_ring.

(** C7: in value (verifier) mode, with β = 2, γ = 3, η = 5 and a row with
    [w_l = 1], [w_r = w_o = 0], zero wire shifts, [q_lookup = 1],
    [table_1 = 1], [table_2 = table_3 = table_4 = 0], zero shifted table
    columns and [q_o = q_r = q_m = q_c = 0],
    [compute_grand_product_numerator] returns 120; if moreover
    [sorted_accum = 1] and [sorted_accum_shift = 0],
    [compute_grand_product_denominator] returns 10. *)
Theorem lookup_numerator_denominator_scenario
    (new_term : AllEntities) (relation_parameters : RelationParameters) :
  beta relation_parameters = FF_of_Z 2 ->
  gamma relation_parameters = FF_of_Z 3 ->
  eta relation_parameters = FF_of_Z 5 ->
  w_l new_term = FF_of_Z 1 -> w_r new_term = FF_of_Z 0 -> w_o new_term = FF_of_Z 0 ->
  w_l_shift new_term = FF_of_Z 0 -> w_r_shift new_term = FF_of_Z 0 ->
  w_o_shift new_term = FF_of_Z 0 ->
  q_lookup new_term = FF_of_Z 1 ->
  table_1 new_term = FF_of_Z 1 -> table_2 new_term = FF_of_Z 0 ->
  table_3 new_term = FF_of_Z 0 -> table_4 new_term = FF_of_Z 0 ->
  table_1_shift new_term = FF_of_Z 0 -> table_2_shift new_term = FF_of_Z 0 ->
  table_3_shift new_term = FF_of_Z 0 -> table_4_shift new_term = FF_of_Z 0 ->
  q_o new_term = FF_of_Z 0 -> q_r new_term = FF_of_Z 0 ->
  q_m new_term = FF_of_Z 0 -> q_c new_term = FF_of_Z 0 ->
  LookupRelationImpl.compute_grand_product_numerator new_term relation_parameters
    = FF_of_Z 120
  /\ (sorted_accum new_term = FF_of_Z 1 -> sorted_accum_shift new_term = FF_of_Z 0 ->
      LookupRelationImpl.compute_grand_product_denominator new_term relation_parameters
        = FF_of_Z 10).
Proof.
  intros Hb Hg He Hwl Hwr Hwo Hwls Hwrs Hwos Hql Ht1 Ht2 Ht3 Ht4 Ht1s Ht2s Ht3s Ht4s
    Hqo Hqr Hqm Hqc.
  split.
  - unfold LookupRelationImpl.compute_grand_product_numerator, View.
    rewrite Hb, Hg, He, Hwl, Hwr, Hwo, Hwls, Hwrs, Hwos, Hql, Ht1, Ht2, Ht3, Ht4,
      Ht1s, Ht2s, Ht3s, Ht4s, Hqo, Hqr, Hqm, Hqc.
    cbn [FF_of_Z FF_of_pos]. ring.
  - intros Hs Hss.
    unfold LookupRelationImpl.compute_grand_product_denominator, View.
    rewrite Hb, Hg, Hs, Hss. cbn [FF_of_Z FF_of_pos]. ring.
Qed.

(** C8: [accumulate] adds to the accumulators it is given: the result is
    [(a0 + c0 * s, a1 + c1 * s)] where
    [c0 = numerator * (z_lookup + lagrange_first)
          - denominator * (z_lookup_shift + lagrange_last * lookup_grand_product_delta)]
    and [c1 = lagrange_last * z_lookup_shift] are made of the row and of the
    relation parameters only.  Hence the result is the initial contents
    plus what [accumulate] leaves in zeroed accumulators. *)
Theorem lookup_accumulate_additive (a0 a1 : FF)
    (new_term : AllEntities) (relation_parameters : RelationParameters)
    (scaling_factor : FF) :
  let c0 :=
    LookupRelationImpl.compute_grand_product_numerator new_term relation_parameters
      * (z_lookup new_term + lagrange_first new_term)
    - LookupRelationImpl.compute_grand_product_denominator new_term relation_parameters
      * (z_lookup_shift new_term
         + lagrange_last new_term * lookup_grand_product_delta relation_parameters) in
  let c1 := lagrange_last new_term * z_lookup_shift new_term in
  LookupRelationImpl.accumulate (a0, a1) new_term relation_parameters scaling_factor
    = (a0 + c0 * scaling_factor, a1 + c1 * scaling_factor)
  /\ LookupRelationImpl.accumulate (a0, a1) new_term relation_parameters scaling_factor
    = (a0 + fst (LookupRelationImpl.accumulate (0, 0) new_term relation_parameters
                   scaling_factor),
       a1 + snd (LookupRelationImpl.accumulate (0, 0) new_term relation_parameters
                   scaling_factor)).
Proof.
  intros c0 c1. split.
  - reflexivity.
  - unfold LookupRelationImpl.accumulate, get0_add_assign, get1_add_assign, View.
    cbn [fst snd]. f_equal; ring.
Qed.

(** C9: [convert_to_wnaf s0 s1 = 2 * (4 * s0 + s1) - 15]. *)
Theorem convert_to_wnaf_value (s0 s1 : FF) :
  ECCVMSetRelationBase.convert_to_wnaf s0 s1
    = FF_of_Z 2 * (FF_of_Z 4 * s0 + s1) - FF_of_Z 15.
Proof.
  unfold ECCVMSetRelationBase.convert_to_wnaf.
  cbn [FF_of_Z FF_of_pos]. ring.
Qed.
End RelationClaims.

Lemma lookup_numerator_denominator_scenario_witness :
  LookupRelationImpl.compute_grand_product_numerator
    Scenario.lookup_row Scenario.lookup_parameters = Bn254.reduce 120
  /\ LookupRelationImpl.compute_grand_product_denominator
    Scenario.lookup_row Scenario.lookup_parameters = Bn254.reduce 10.
Proof.
  destruct (lookup_numerator_denominator_scenario
              Scenario.lookup_row Scenario.lookup_parameters
              eq_refl eq_refl eq_refl eq_refl eq_refl eq_refl eq_refl eq_refl
              eq_refl eq_refl eq_refl eq_refl eq_refl eq_refl eq_refl eq_refl
              eq_refl eq_refl eq_refl eq_refl eq_refl eq_refl) as [Hnum Hden].
  split; [exact Hnum | exact (Hden eq_refl eq_refl)].
Defined.

(** * Further properties *)

(** ** The perturbator as a polynomial *)

Section PerturbatorPolynomialFacts.
Context {F : FieldElement}.
Local Open Scope FF_scope.
Add Ring FF_ring_polynomial : FF_ring.

Lemma add_at_cons_S (a : FF) (l : list FF) (i : nat) (c : FF) :
  add_at (a :: l) (S i) c = a :: add_at l i c.
Proof. unfold add_at. simpl. now destruct (l !! i). Qed.

Lemma eval_poly_add_at (l : list FF) (i : nat) (c x : FF) :
  (i < length l)%nat ->
  eval_poly (add_at l i c) x = eval_poly l x + c * FF_pow x i.
Proof.
  revert i. induction l as [|a l IH]; intros i Hi; simpl in Hi; [lia|].
  destruct i as [|i].
  - unfold add_at. simpl. ring.
  - rewrite add_at_cons_S. simpl. rewrite IH by lia. ring.
Qed.

Lemma eval_poly_app (l1 l2 : list FF) (x : FF) :
  eval_poly (l1 ++ l2) x = eval_poly l1 x + FF_pow x (length l1) * eval_poly l2 x.
Proof. induction l1 as [|a l1 IH]; simpl; [|rewrite IH]; ring. Qed.

Lemma eval_combine_steps (bk dk : FF) (right : list FF) (x : FF) (n : nat) :
  forall res : list FF,
    (n <= length right)%nat -> (n + 1 <= length res)%nat ->
    eval_poly (foldl (combine_step bk dk right) res (seq 0 n)) x
    = eval_poly res x + (bk + dk * x) * eval_poly (take n right) x.
Proof.
  induction n as [|n IH]; intros res Hr Hres.
  - simpl. ring.
  - rewrite seq_S, foldl_app. simpl.
    destruct (lookup_lt_is_Some_2 right n ltac:(lia)) as [r Hrn].
    unfold combine_step at 1.
    rewrite !eval_poly_add_at by (rewrite ?add_at_length, combine_steps_length; lia).
    rewrite IH by lia.
    rewrite (take_S_r _ _ _ Hrn), eval_poly_app, length_take_le by lia.
    rewrite (nth_lookup_Some _ _ _ _ Hrn), Nat.add_1_r. simpl. ring.
Qed.

(** As polynomials, the vector made of a pair is
    [left + (β_k + δ_k X) * right]. *)
Lemma eval_combine_pair (k : nat) (bk dk : FF) (left right : list FF) (x : FF) :
  length left = (k + 1)%nat -> length right = (k + 1)%nat ->
  eval_poly (combine_pair k bk dk left right) x
  = eval_poly left x + (bk + dk * x) * eval_poly right x.
Proof.
  intros Hl Hr. unfold combine_pair.
  rewrite eval_combine_steps by (rewrite ?length_app; simpl; lia).
  rewrite eval_poly_app, take_ge by lia. simpl. ring.
Qed.

Lemma eval_leaf_pair (b0 d0 v0 v1 x : FF) :
  eval_poly (leaf_pair b0 d0 v0 v1) x = v0 + (b0 + d0 * x) * v1.
Proof. unfold leaf_pair. simpl. ring. Qed.

Lemma fold_pairs_length (g : FF) (m : nat) :
  forall vs : list FF, length vs = (2 * m)%nat -> length (fold_pairs g vs) = m.
Proof.
  induction m as [|m IH]; intros [|v0 [|v1 vs]] H; simpl in *; try lia.
  rewrite IH; lia.
Qed.

Lemma fold_pairs_app (g : FF) (m : nat) :
  forall v1 v2 : list FF, length v1 = (2 * m)%nat ->
    fold_pairs g (v1 ++ v2) = fold_pairs g v1 ++ fold_pairs g v2.
Proof.
  induction m as [|m IH]; intros [|a [|b v1]] v2 H; simpl in *; try lia; [done|].
  rewrite IH by lia. done.
Qed.

Lemma fold_levels_app (gs : list FF) :
  forall (m : nat) (v1 v2 : list FF), length v1 = (m * 2 ^ length gs)%nat ->
    fold_levels gs (v1 ++ v2) = fold_levels gs v1 ++ fold_levels gs v2.
Proof.
  induction gs as [|g gs IH]; intros m v1 v2 H; simpl; [done|].
  simpl in H.
  rewrite (fold_pairs_app g (m * 2 ^ length gs)) by lia.
  apply (IH m). apply fold_pairs_length. lia.
Qed.

(** What a level does to values is what it does to weights. *)
Lemma weighted_sum_fold_pairs (g : FF) (gs : list FF) (m : nat) :
  forall (j : nat) (vs : list FF), length vs = (2 * m)%nat ->
    weighted_sum (g :: gs) (2 * j) vs = weighted_sum gs j (fold_pairs g vs).
Proof.
  induction m as [|m IH]; intros j [|v0 [|v1 vs]] H; simpl in H; try lia; [done|].
  cbn [weighted_sum fold_pairs row_weight].
  replace (S (S (2 * j))) with (2 * S j)%nat by lia.
  rewrite IH by lia.
  replace (Nat.odd (2 * j)) with false
    by (symmetry; rewrite Nat.odd_mul; reflexivity).
  replace (Nat.odd (S (2 * j))) with true
    by (symmetry; rewrite Nat.odd_succ, Nat.even_mul; reflexivity).
  replace (2 * j / 2)%nat with j by (symmetry; rewrite Nat.mul_comm; apply Nat.div_mul; lia).
  replace (S (2 * j) / 2)%nat with j.
  - ring.
  - symmetry. replace (S (2 * j)) with (1 + j * 2)%nat by lia.
    rewrite Nat.div_add by lia. reflexivity.
Qed.

Lemma fold_levels_weighted_sum (gs : list FF) :
  forall vs : list FF, length vs = (2 ^ length gs)%nat ->
    fold_levels gs vs = [weighted_sum gs 0 vs].
Proof.
  induction gs as [|g gs IH]; intros vs H; simpl in H.
  - destruct vs as [|v [|? ?]]; simpl in H; try lia. simpl. f_equal. ring.
  - cbn [fold_levels]. rewrite IH by (apply fold_pairs_length; lia).
    f_equal. symmetry. apply (weighted_sum_fold_pairs g gs (2 ^ length gs) 0). lia.
Qed.

(** A level given cell by cell is [fold_pairs] on the values. *)
Lemma fold_pairs_lookup {A B : Type} (e : A -> FF) (e' : B -> FF) (h : A -> A -> B)
    (g : FF) (d : A) (m : nat) :
  forall (prev : list A) (L : list B),
    length prev = (2 * m)%nat -> length L = m ->
    (forall i, (i < m)%nat ->
       L !! i = Some (h (nth (2 * i) prev d) (nth (2 * i + 1) prev d))) ->
    (forall a b, a ∈ prev -> b ∈ prev -> e' (h a b) = e a + g * e b) ->
    map e' L = fold_pairs g (map e prev).
Proof.
  induction m as [|m IH]; intros prev L Hp HL Hcells Hh.
  - destruct prev; [|discriminate]. destruct L; [|discriminate]. done.
  - destruct prev as [|a [|b prev]]; simpl in Hp; try lia.
    destruct L as [|l0 L]; simpl in HL; [lia|].
    cbn [map fold_pairs]. f_equal.
    + specialize (Hcells 0%nat ltac:(lia)). simpl in Hcells.
      injection Hcells as ->.
      apply Hh; [apply list_elem_of_here | apply list_elem_of_further, list_elem_of_here].
    + apply IH; try lia.
      * intros i Hi. specialize (Hcells (S i) ltac:(lia)).
        replace (2 * S i)%nat with (S (S (2 * i))) in Hcells by lia.
        simpl in Hcells. exact Hcells.
      * intros a' b' Ha Hb. apply Hh; do 2 apply list_elem_of_further; done.
Qed.

Lemma level_factors_lookup (betas deltas : list FF) (x : FF) (k : nat) (bk dk : FF) :
  betas !! k = Some bk -> deltas !! k = Some dk ->
  level_factors betas deltas x !! k = Some (bk + dk * x).
Proof.
  intros Hb Hd. unfold level_factors. rewrite lookup_zip_with, Hb. simpl.
  now rewrite Hd.
Qed.

Lemma level_factors_length (betas deltas : list FF) (x : FF) :
  (length betas <= length deltas)%nat ->
  length (level_factors betas deltas x) = length betas.
Proof. intros H. unfold level_factors. rewrite length_zip_with. lia. Qed.

Lemma level_factors_zero (betas deltas : list FF) :
  (length betas <= length deltas)%nat -> level_factors betas deltas 0 = betas.
Proof.
  revert deltas. induction betas as [|b betas IH]; intros [|d deltas] H;
    simpl in *; try lia; try reflexivity.
  unfold level_factors in *. simpl. rewrite IH by lia. f_equal. ring.
Qed.
End PerturbatorPolynomialFacts.

Section PerturbatorValue.
Context {F : FieldElement}.
Local Open Scope FF_scope.
Add Ring FF_ring_value : FF_ring.

(** From level [level], with [w * 2^n] vectors and [n] challenges left:
    the result is the head of what the remaining levels make of the values
    of the vectors. *)
Lemma compute_level_eval (n : nat) :
  forall (fuel level : nat) (betas deltas : list FF) (prev : list (list FF)) (w : nat),
    length betas = (level + n)%nat -> (length betas <= length deltas)%nat ->
    length prev = (w * 2 ^ n)%nat -> (1 <= w)%nat ->
    (forall v, v ∈ prev -> length v = (level + 1)%nat) ->
    (n < fuel)%nat ->
    exists c, compute_level fuel level betas deltas prev = Ok c
      /\ length c = (level + n + 1)%nat
      /\ forall x,
           head (fold_levels (drop level (level_factors betas deltas x))
                   (map (fun v => eval_poly v x) prev))
           = Some (eval_poly c x).
Proof.
  induction n as [|n IH]; intros fuel level betas deltas prev w Hb Hd Hp Hw Hall Hfuel;
    (destruct fuel as [|fuel]; [lia|]); simpl.
  - rewrite decide_True by lia.
    destruct prev as [|c prev]; [simpl in Hp; lia|].
    exists c. split; [done|]. split.
    + rewrite (Hall c) by apply list_elem_of_here. lia.
    + intros x. rewrite drop_ge by (rewrite level_factors_length; lia). done.
  - rewrite decide_False by lia.
    destruct (lookup_lt_is_Some_2 betas level ltac:(lia)) as [bk Hbk].
    destruct (lookup_lt_is_Some_2 deltas level ltac:(lia)) as [dk Hdk].
    assert (length prev = 2 * (w * 2 ^ n))%nat as Hp'
      by (rewrite Hp, Nat.pow_succ_r'; lia).
    destruct (compute_level_coeffs_run level betas deltas prev bk dk (w * 2 ^ n)
                Hbk Hdk Hp' Hall) as (L & HrunL & HlenL & HL).
    rewrite HrunL; simpl.
    destruct (IH fuel (level + 1)%nat betas deltas L w) as (c & Hrun & Hlen & Hval);
      try lia.
    + intros v Hv. apply list_elem_of_lookup_1 in Hv as [i Hi].
      assert (i < w * 2 ^ n)%nat as Hlt by (apply lookup_lt_Some in Hi; lia).
      rewrite (HL i Hlt) in Hi. injection Hi as <-.
      rewrite combine_pair_length, Hall; [done|]. apply elem_of_nth_lt. lia.
    + exists c. split; [done|]. split; [lia|].
      intros x. rewrite <- Hval.
      rewrite (drop_S _ _ _ (level_factors_lookup betas deltas x level bk dk Hbk Hdk)).
      cbn [fold_levels]. rewrite Nat.add_1_r. do 2 f_equal.
      symmetry.
      apply (fold_pairs_lookup (fun v => eval_poly v x) (fun v => eval_poly v x)
               (combine_pair level bk dk) (bk + dk * x) [] (w * 2 ^ n)); try done.
      intros a b Ha Hb'. apply eval_combine_pair; now apply Hall.
Qed.

Lemma construct_perturbator_coeffs_eval (t w fuel : nat)
    (betas deltas full_honk_evaluations : list FF) :
  (1 <= t)%nat -> length betas = t -> (t <= length deltas)%nat ->
  length full_honk_evaluations = (w * 2 ^ t)%nat -> (1 <= w)%nat -> (t <= fuel)%nat ->
  exists c, construct_perturbator_coeffs fuel betas deltas full_honk_evaluations = Ok c
    /\ length c = (t + 1)%nat
    /\ forall x, eval_poly c x
         = weighted_sum (level_factors betas deltas x) 0
             (take (2 ^ t) full_honk_evaluations).
Proof.
  intros Ht Hb Hd He Hw Hfuel. destruct t as [|n]; [lia|].
  destruct (lookup_lt_is_Some_2 betas 0%nat ltac:(lia)) as [b0 Hb0].
  destruct (lookup_lt_is_Some_2 deltas 0%nat ltac:(lia)) as [d0 Hd0].
  assert (length full_honk_evaluations = 2 * (w * 2 ^ n))%nat as He'
    by (rewrite He, Nat.pow_succ_r'; lia).
  destruct (first_level_coeffs_run betas deltas full_honk_evaluations b0 d0 (w * 2 ^ n)
              Hb0 Hd0 He') as (L & HrunL & HlenL & HL).
  unfold construct_perturbator_coeffs. rewrite HrunL; simpl.
  destruct (compute_level_eval n fuel 1%nat betas deltas L w) as (c & Hrun & Hlen & Hval);
    try lia.
  - intros v Hv. apply list_elem_of_lookup_1 in Hv as [i Hi].
    assert (i < w * 2 ^ n)%nat as Hlt by (apply lookup_lt_Some in Hi; lia).
    rewrite (HL i Hlt) in Hi. now injection Hi as <-.
  - exists c. split; [done|]. split; [lia|].
    intros x. specialize (Hval x).
    assert (map (fun v => eval_poly v x) L
            = fold_pairs (b0 + d0 * x) (map (fun v => v) full_honk_evaluations)) as HmapL.
    { apply (fold_pairs_lookup (fun v => v) (fun v => eval_poly v x)
               (leaf_pair b0 d0) (b0 + d0 * x) 0 (w * 2 ^ n)); try done.
      intros a b _ _. apply eval_leaf_pair. }
    rewrite map_id in HmapL. rewrite HmapL in Hval.
    assert (fold_levels (level_factors betas deltas x) full_honk_evaluations
            = fold_levels (drop 1 (level_factors betas deltas x))
                (fold_pairs (b0 + d0 * x) full_honk_evaluations)) as Hunfold.
    { pose proof (drop_S _ _ 0 (level_factors_lookup betas deltas x 0 b0 d0 Hb0 Hd0))
        as Hcons.
      rewrite drop_0 in Hcons.
      transitivity (fold_levels ((b0 + d0 * x) :: drop 1 (level_factors betas deltas x))
                      full_honk_evaluations); [now f_equal | reflexivity]. }
    rewrite <- Hunfold in Hval.
    rewrite <- (take_drop (2 ^ S n) full_honk_evaluations) in Hval.
    assert (length (level_factors betas deltas x) = S n) as Hgs
      by (rewrite level_factors_length; lia).
    assert (length (take (2 ^ S n) full_honk_evaluations)
            = 2 ^ length (level_factors betas deltas x))%nat as Htake.
    { rewrite Hgs, length_take_le; [done|]. rewrite He. nia. }
    rewrite (fold_levels_app _ 1) in Hval by lia.
    rewrite (fold_levels_weighted_sum _ _ Htake) in Hval.
    simpl in Hval. now injection Hval as <-.
Qed.

End PerturbatorValue.

(** ** Runs that fail *)

Section Failures.
Context {A : Type}.
Implicit Types (v : list A) (m : list (list A)).

Lemma bind_err {B C : Type} (r : result B) (k : B -> result C) (e : error) :
  (x <- r ;; k x) = Err e -> r = Err e \/ exists b, r = Ok b /\ k b = Err e.
Proof. destruct r as [b|e']; simpl; intros H; [right; eauto | left; congruence]. Qed.

Lemma vec_get_err v i e : vec_get v i = Err e -> e = OutOfBounds.
Proof. unfold vec_get. destruct (v !! i); congruence. Qed.

Lemma vec_set_err v i x e : vec_set v i x = Err e -> e = OutOfBounds.
Proof. unfold vec_set. destruct (decide (i < length v)); congruence. Qed.
End Failures.

Lemma vec2_set_err {A : Type} (m : list (list A)) i j x e :
  vec2_set m i j x = Err e -> e = OutOfBounds.
Proof.
  unfold vec2_set. intros H.
  apply bind_err in H as [H|(row & _ & H)]; [now apply vec_get_err in H|].
  apply bind_err in H as [H|(row' & _ & H)]; [now apply vec_set_err in H|].
  now apply vec_set_err in H.
Qed.

(** A loop fails with [OutOfBounds] as soon as its last iteration always
    does and the earlier ones do not fail otherwise. *)
Lemma for_iter_last_fails {S : Type} (n : nat) :
  forall (i0 step : nat) (body : nat -> S -> result S) (s : S),
    (forall j s1 e, j < n -> body (i0 + j * step) s1 = Err e -> e = OutOfBounds) ->
    (forall s1, body (i0 + n * step) s1 = Err OutOfBounds) ->
    for_iter (Datatypes.S n) i0 step body s = Err OutOfBounds.
Proof.
  induction n as [|n IH]; intros i0 step body s Hearly Hlast.
  - simpl. specialize (Hlast s). replace (i0 + 0 * step) with i0 in Hlast by lia.
    now rewrite Hlast.
  - change (for_iter (Datatypes.S (Datatypes.S n)) i0 step body s)
      with (s' <- body i0 s ;; for_iter (Datatypes.S n) (i0 + step) step body s').
    destruct (body i0 s) as [s'|e] eqn:Hb; simpl.
    + apply IH.
      * intros j s1 e Hj He. apply (Hearly (Datatypes.S j) s1 e); [lia|].
        rewrite <- He. f_equal. lia.
      * intros s1. rewrite <- (Hlast s1). f_equal. lia.
    + f_equal. apply (Hearly 0 s e); [lia|].
      rewrite <- Hb. f_equal. lia.
Qed.

Lemma for_each_fails {A S : Type} (body : A -> S -> result S) (bad : A) :
  (forall a s e, body a s = Err e -> e = OutOfBounds) ->
  (forall s, body bad s = Err OutOfBounds) ->
  forall (l : list A) (s : S), bad ∈ l -> for_each l body s = Err OutOfBounds.
Proof.
  intros Hany Hbad l. induction l as [|a l IH]; intros s Hin.
  - now apply elem_of_nil in Hin.
  - simpl. destruct (body a s) as [s'|e] eqn:Hb; simpl.
    + apply elem_of_cons in Hin as [->|Hin]; [|now apply IH].
      rewrite Hbad in Hb. discriminate.
    + f_equal. now apply (Hany a s).
Qed.

Section PerturbatorFailures.
Context {F : FieldElement}.
Local Open Scope FF_scope.

Lemma trip_count_odd (m : nat) : trip_count 0 (2 * m + 1) 2 = Datatypes.S m.
Proof.
  unfold trip_count. replace (2 * m + 1 - 0 + (2 - 1))%nat with ((m + 1) * 2)%nat by lia.
  rewrite Nat.div_mul by lia. lia.
Qed.

Lemma first_level_coeffs_odd (betas deltas v : list FF) (m : nat) :
  length v = (2 * m + 1)%nat -> first_level_coeffs betas deltas v = Err OutOfBounds.
Proof.
  intros Hlen. unfold first_level_coeffs, for_loop.
  rewrite Hlen, trip_count_odd.
  apply for_iter_last_fails.
  - intros j s e _ H. cbv zeta in H.
    apply bind_err in H as [H|(e0 & _ & H)]; [now apply vec_get_err in H|].
    apply bind_err in H as [H|(e1 & _ & H)]; [now apply vec_get_err in H|].
    apply bind_err in H as [H|(b & _ & H)]; [now apply vec_get_err in H|].
    apply bind_err in H as [H|(s' & _ & H)]; [now apply vec2_set_err in H|].
    apply bind_err in H as [H|(e1' & _ & H)]; [now apply vec_get_err in H|].
    apply bind_err in H as [H|(d & _ & H)]; [now apply vec_get_err in H|].
    now apply vec2_set_err in H.
  - intros s. cbv zeta.
    destruct (lookup_lt_is_Some_2 v (0 + m * 2)%nat ltac:(lia)) as [e0 He0].
    rewrite (vec_get_ok _ _ _ He0); simpl.
    now rewrite vec_get_oob by lia.
Qed.

(** With more [betas] than levels, the level after the last one works on
    a single vector and reaches for a parent cell that does not exist. *)
Lemma compute_level_too_many_betas (n : nat) :
  forall (fuel level : nat) (betas deltas : list FF) (prev : list (list FF)),
    (level + n < length betas)%nat -> (level + n <= length deltas)%nat ->
    length prev = (2 ^ n)%nat ->
    (forall v, v ∈ prev -> length v = (level + 1)%nat) ->
    (n < fuel)%nat ->
    compute_level fuel level betas deltas prev = Err OutOfBounds.
Proof.
  induction n as [|n IH]; intros fuel level betas deltas prev Hb Hd Hp Hall Hfuel;
    (destruct fuel as [|fuel]; [lia|]); simpl.
  - rewrite decide_False by lia.
    destruct prev as [|c [|? ?]]; simpl in Hp; try lia.
    reflexivity.
  - rewrite decide_False by lia.
    destruct (lookup_lt_is_Some_2 betas level ltac:(lia)) as [bk Hbk].
    destruct (lookup_lt_is_Some_2 deltas level ltac:(lia)) as [dk Hdk].
    rewrite Nat.pow_succ_r' in Hp.
    destruct (compute_level_coeffs_run level betas deltas prev bk dk (2 ^ n)
                Hbk Hdk Hp Hall) as (L & HrunL & HlenL & HL).
    rewrite HrunL; simpl.
    apply IH; try lia.
    intros v Hv. apply list_elem_of_lookup_1 in Hv as [i Hi].
    assert (i < 2 ^ n)%nat as Hlt by (apply lookup_lt_Some in Hi; lia).
    rewrite (HL i Hlt) in Hi. injection Hi as <-.
    rewrite combine_pair_length, Hall; [done|]. apply elem_of_nth_lt. lia.
Qed.
End PerturbatorFailures.

(** ** Rows of the execution trace *)

Section ExecutionRow.
Context {F : FieldElement}.
Local Open Scope FF_scope.
Variable NUM_ALL_ENTITIES : nat.

(** The loop of [get_execution_row] after the columns [done_]. *)
Lemma get_execution_row_loop (row : nat) (polys : list (list FF)) :
  forall done_ : list FF,
    (forall poly, poly ∈ polys -> (row < length poly)%nat) ->
    for_each polys
      (fun poly (st : list FF * nat) =>
         x <- vec_get poly row ;;
         row_evals <- vec_set (fst st) (snd st) x ;;
         Ok (row_evals, (snd st + 1)%nat))
      (done_ ++ replicate (length polys) 0, length done_)
    = Ok (done_ ++ map (fun poly => nth row poly 0) polys,
          (length done_ + length polys)%nat).
Proof.
  induction polys as [|poly polys IH]; intros done_ Hrow.
  - simpl. now rewrite Nat.add_0_r.
  - cbn [for_each].
    destruct (lookup_lt_is_Some_2 poly row
                (Hrow poly (list_elem_of_here _ _))) as [x Hx].
    rewrite (vec_get_ok _ _ _ Hx); simpl.
    rewrite vec_set_ok by (rewrite length_app; simpl; lia); simpl.
    replace (length done_) with (length done_ + 0)%nat at 1 by lia.
    rewrite insert_app_r. simpl.
    rewrite (nth_lookup_Some _ _ _ _ Hx).
    specialize (IH (done_ ++ [x])).
    rewrite length_app, <- !app_assoc in IH. simpl in IH.
    rewrite IH by (intros p Hp; apply Hrow; now apply list_elem_of_further).
    do 2 f_equal. lia.
Qed.

Lemma get_execution_row_run (accumulator : ProverInstance.Instance) (row : nat) :
  length (ProverInstance.prover_polynomials accumulator) = NUM_ALL_ENTITIES ->
  (forall poly, poly ∈ ProverInstance.prover_polynomials accumulator ->
     (row < length poly)%nat) ->
  get_execution_row NUM_ALL_ENTITIES accumulator row
  = Ok (map (fun poly => nth row poly 0) (ProverInstance.prover_polynomials accumulator)).
Proof.
  intros Hnum Hrow. unfold get_execution_row, vec_new. rewrite <- Hnum.
  pose proof (get_execution_row_loop row _ [] Hrow) as Hloop.
  cbn [app length] in Hloop. now rewrite Hloop.
Qed.

Lemma get_execution_row_short (accumulator : ProverInstance.Instance) (row : nat)
    (poly : list FF) :
  poly ∈ ProverInstance.prover_polynomials accumulator -> (length poly <= row)%nat ->
  get_execution_row NUM_ALL_ENTITIES accumulator row = Err OutOfBounds.
Proof.
  intros Hin Hshort. unfold get_execution_row.
  rewrite (for_each_fails _ poly); [done| | |done].
  - intros a s e H.
    apply bind_err in H as [H|(x & _ & H)]; [now apply vec_get_err in H|].
    apply bind_err in H as [H|(r & _ & H)]; [now apply vec_set_err in H|].
    discriminate.
  - intros s. now rewrite vec_get_oob.
Qed.
End ExecutionRow.

(** ** [compute_perturbator] *)

Section ComputePerturbator.
Context {F : FieldElement}.
Local Open Scope FF_scope.
Variable NUM_ALL_ENTITIES : nat.
Variable compute_full_honk_relation_row_value :
  list FF -> FF -> RelationParameters -> FF.

Lemma cells_map_seq {A : Type} (g : nat -> A) (n : nat) (s : list A) :
  length s = n -> (forall i, (i < n)%nat -> s !! i = Some (g i)) ->
  s = map g (seq 0 n).
Proof.
  intros Hlen Hcells. change (map g (seq 0 n)) with (g <$> seq 0 n).
  apply (list_eq_same_length _ _ n); [now rewrite length_fmap, length_seq | done |].
  intros i x y Hi Hx Hy.
  rewrite (Hcells i Hi) in Hx. rewrite list_lookup_fmap, lookup_seq_lt in Hy by done.
  simpl in Hy. congruence.
Qed.

(** The value of the full relation on row [row] of the accumulator. *)
Lemma full_honk_evaluations_run (accumulator : ProverInstance.Instance) (alpha : FF)
    (n : nat) :
  length (ProverInstance.prover_polynomials accumulator) = NUM_ALL_ENTITIES ->
  (forall poly, poly ∈ ProverInstance.prover_polynomials accumulator -> length poly = n) ->
  for_loop 0 n 1
    (fun idx full_honk_evaluations =>
       row_evaluations <- get_execution_row NUM_ALL_ENTITIES accumulator idx ;;
       let full_honk_at_row :=
         compute_full_honk_relation_row_value row_evaluations alpha
           (ProverInstance.relation_parameters accumulator) in
       vec_set full_honk_evaluations idx full_honk_at_row)
    (vec_new n 0)
  = Ok (map (fun row =>
               compute_full_honk_relation_row_value
                 (map (fun poly => nth row poly 0)
                    (ProverInstance.prover_polynomials accumulator))
                 alpha (ProverInstance.relation_parameters accumulator))
          (seq 0 n)).
Proof.
  intros Hnum Hsize. unfold for_loop, vec_new. rewrite trip_count_unit, Nat.sub_0_r.
  match goal with |- for_iter _ _ _ ?body ?s0 = Ok (map ?g _) =>
    destruct (for_iter_invariant
      (fun j s => length s = n /\ forall i, (i < j)%nat -> s !! i = Some (g i))
      n 0%nat 1%nat body s0) as (s & Hrun & Hlen & Hcells)
  end.
  - split; [apply length_replicate | lia].
  - intros j s Hj [Hlen Hcells]. cbv beta zeta.
    replace (0 + j * 1)%nat with j by lia.
    rewrite (get_execution_row_run NUM_ALL_ENTITIES accumulator j Hnum)
      by (intros poly Hp; rewrite (Hsize poly Hp); lia).
    simpl. rewrite vec_set_ok by lia.
    eexists; split; [done|]. split; [now rewrite length_insert|].
    intros i Hi. destruct (decide (i = j)) as [->|Hne].
    + now rewrite list_lookup_insert_eq by lia.
    + rewrite list_lookup_insert_ne by lia. apply Hcells. lia.
  - rewrite Hrun. f_equal. now apply cells_map_seq.
Qed.

Lemma get_msb_pow2 (t : nat) : get_msb (2 ^ t) = t.
Proof. unfold get_msb. apply Nat.log2_pow2. lia. Qed.

Lemma compute_perturbator_run (asserts_enabled : bool) (fuel t : nat)
    (accumulator : ProverInstance.Instance) (deltas : list FF) (alpha : FF) :
  length (ProverInstance.prover_polynomials accumulator) = NUM_ALL_ENTITIES ->
  (1 <= NUM_ALL_ENTITIES)%nat ->
  (forall poly, poly ∈ ProverInstance.prover_polynomials accumulator ->
     length poly = (2 ^ t)%nat) ->
  length deltas = t ->
  length (ProverInstance.gate_separation_challenges accumulator) = t ->
  compute_perturbator NUM_ALL_ENTITIES compute_full_honk_relation_row_value
    asserts_enabled fuel accumulator deltas alpha
  = run (construct_perturbator_coeffs fuel
           (ProverInstance.gate_separation_challenges accumulator) deltas
           (map (fun row =>
                   compute_full_honk_relation_row_value
                     (map (fun poly => nth row poly 0)
                        (ProverInstance.prover_polynomials accumulator))
                     alpha (ProverInstance.relation_parameters accumulator))
              (seq 0 (2 ^ t)))).
Proof.
  intros Hnum Hpos Hsize Hd Hb. unfold compute_perturbator.
  destruct (lookup_lt_is_Some_2 (ProverInstance.prover_polynomials accumulator) 0%nat
              ltac:(lia)) as [poly0 Hpoly0].
  rewrite (vec_get_ok _ _ _ Hpoly0). cbn [run checked_bind].
  rewrite (Hsize poly0 (list_elem_of_lookup_2 _ _ _ Hpoly0)), get_msb_pow2.
  unfold assert_.
  rewrite !bool_decide_eq_true_2 by done.
  rewrite andb_false_r. cbn [checked_bind].
  pose proof (full_honk_evaluations_run accumulator alpha (2 ^ t) Hnum Hsize) as Hrows.
  cbv zeta in Hrows |- *. rewrite Hrows. reflexivity.
Qed.
End ComputePerturbator.

(** ** What the result depends on *)

Section Dependence.
Context {F : FieldElement}.
Local Open Scope FF_scope.



End Dependence.

(** ** Geometric sums *)

Section GeometricSum.
Context {F : FieldElement}.
Local Open Scope FF_scope.
Add Ring FF_ring_geometric : FF_ring.

Lemma FF_pow_one (n : nat) : FF_pow 1 n = 1.
Proof. induction n as [|n IH]; simpl; [|rewrite IH]; ring. Qed.

Lemma FF_pow_mul (x : FF) (a b : nat) : FF_pow (FF_pow x a) b = FF_pow x (a * b).
Proof.
  induction b as [|b IH]; simpl.
  - now rewrite Nat.mul_0_r.
  - rewrite IH, <- FF_pow_add. f_equal. lia.
Qed.

Lemma geometric_sum (x : FF) (n : nat) :
  foldl (fun result idx => result + FF_pow x idx) 0 (seq 0 n) * (x - 1)
  = FF_pow x n - 1.
Proof.
  induction n as [|n IH].
  - simpl. ring.
  - rewrite seq_S, foldl_app. simpl.
    transitivity
      (foldl (fun result idx => result + FF_pow x idx) 0 (seq 0 n) * (x - 1)
       + FF_pow x n * (x - 1)); [ring|].
    rewrite IH. ring.
Qed.
End GeometricSum.

(** * Further theorems *)

Section PerturbatorTheorems.
Context {F : FieldElement}.
Local Open Scope FF_scope.
Add Ring FF_ring_theorems : FF_ring.

(** X1: for [t >= 1], [t] betas, [t] deltas and [2^t] relation values
    [v], the vector returned by [construct_perturbator_coeffs] is, as a
    polynomial in [X], the sum over the rows [i] of [v_i] times the
    product of [betas[k] + deltas[k] * X] over the bits [k] set in [i]. *)
Theorem perturbator_is_weighted_sum (t fuel : nat)
    (betas deltas full_honk_evaluations : list FF) :
  (1 <= t)%nat -> length betas = t -> length deltas = t ->
  length full_honk_evaluations = (2 ^ t)%nat -> (t <= fuel)%nat ->
  exists coeffs,
    construct_perturbator_coeffs fuel betas deltas full_honk_evaluations = Ok coeffs
    /\ forall x, eval_poly coeffs x
         = weighted_sum (level_factors betas deltas x) 0 full_honk_evaluations.
Proof.
  intros Ht Hb Hd He Hfuel.
  destruct (construct_perturbator_coeffs_eval t 1 fuel betas deltas full_honk_evaluations)
    as (c & Hrun & _ & Hval); try lia.
  exists c. split; [done|]. intros x.
  rewrite Hval, take_ge by lia. reflexivity.
Qed.

(** X2: under the same conditions the constant coefficient of the
    perturbator does not depend on the deltas: it is the sum over the rows
    [i] of [v_i] times the product of the [betas[k]] over the bits [k] set
    in [i]. *)
Theorem perturbator_constant_term (t fuel : nat)
    (betas deltas full_honk_evaluations : list FF) :
  (1 <= t)%nat -> length betas = t -> length deltas = t ->
  length full_honk_evaluations = (2 ^ t)%nat -> (t <= fuel)%nat ->
  exists coeffs,
    construct_perturbator_coeffs fuel betas deltas full_honk_evaluations = Ok coeffs
    /\ coeffs !! 0%nat = Some (weighted_sum betas 0 full_honk_evaluations).
Proof.
  intros Ht Hb Hd He Hfuel.
  destruct (construct_perturbator_coeffs_eval t 1 fuel betas deltas full_honk_evaluations)
    as (c & Hrun & Hlen & Hval); try lia.
  exists c. split; [done|].
  specialize (Hval 0).
  rewrite take_ge, level_factors_zero in Hval by lia.
  destruct c as [|c0 c]; [simpl in Hlen; lia|].
  simpl in *. f_equal. rewrite <- Hval. ring.
Qed.

(** X3: at any level [k] with challenges [betas[k]] and [deltas[k]], the
    vectors that [compute_level] computes from an even number of vectors of
    length [k + 1] are, as polynomials, [left + (betas[k] + deltas[k] * X)
    * right] for the neighbours [(left, right)]. *)
Theorem perturbator_level_polynomials (k : nat) (betas deltas : list FF)
    (prev : list (list FF)) (bk dk : FF) (m : nat) :
  betas !! k = Some bk -> deltas !! k = Some dk ->
  length prev = (2 * m)%nat -> Forall (fun v => length v = (k + 1)%nat) prev ->
  exists L, compute_level_coeffs k betas deltas prev = Ok L
    /\ forall x, map (fun v => eval_poly v x) L
         = fold_pairs (bk + dk * x) (map (fun v => eval_poly v x) prev).
Proof.
  intros Hbk Hdk Hlen Hall. rewrite Forall_forall in Hall.
  destruct (compute_level_coeffs_run k betas deltas prev bk dk m Hbk Hdk Hlen Hall)
    as (L & Hrun & HlenL & HL).
  exists L. split; [done|]. intros x.
  apply (fold_pairs_lookup (fun v => eval_poly v x) (fun v => eval_poly v x)
           (combine_pair k bk dk) (bk + dk * x) [] m); try done.
  intros a b Ha Hb. apply eval_combine_pair; now apply Hall.
Qed.



(** X6: with an odd number of relation values, the last iteration of the
    leaf loop reads [full_honk_evaluations[node + 1]] past the end:
    [construct_perturbator_coeffs] runs out of bounds whatever the
    challenges. *)
Theorem perturbator_odd_rows_out_of_bounds (fuel m : nat)
    (betas deltas full_honk_evaluations : list FF) :
  length full_honk_evaluations = (2 * m + 1)%nat ->
  construct_perturbator_coeffs fuel betas deltas full_honk_evaluations
  = Err OutOfBounds.
Proof.
  intros Hlen. unfold construct_perturbator_coeffs.
  now rewrite (first_level_coeffs_odd betas deltas full_honk_evaluations m Hlen).
Qed.

(** X7: with [2^t] relation values ([t >= 1]) but more than [t] betas (and
    at least [t] deltas), the tree is down to one vector while [level] is
    still below [betas.size()]; the next level writes to
    [level_coeffs[0]] of an empty [level_coeffs]:
    [construct_perturbator_coeffs] runs out of bounds. *)
Theorem perturbator_surplus_betas_out_of_bounds (t fuel : nat)
    (betas deltas full_honk_evaluations : list FF) :
  (1 <= t)%nat -> (t < length betas)%nat -> (t <= length deltas)%nat ->
  length full_honk_evaluations = (2 ^ t)%nat -> (t <= fuel)%nat ->
  construct_perturbator_coeffs fuel betas deltas full_honk_evaluations
  = Err OutOfBounds.
Proof.
  intros Ht Hb Hd He Hfuel. destruct t as [|n]; [lia|].
  destruct (lookup_lt_is_Some_2 betas 0%nat ltac:(lia)) as [b0 Hb0].
  destruct (lookup_lt_is_Some_2 deltas 0%nat ltac:(lia)) as [d0 Hd0].
  rewrite Nat.pow_succ_r' in He.
  destruct (first_level_coeffs_run betas deltas full_honk_evaluations b0 d0 (2 ^ n)
              Hb0 Hd0 He) as (L & HrunL & HlenL & HL).
  unfold construct_perturbator_coeffs. rewrite HrunL; simpl.
  apply (compute_level_too_many_betas n); try lia.
  intros v Hv. apply list_elem_of_lookup_1 in Hv as [i Hi].
  assert (i < 2 ^ n)%nat as Hlt by (apply lookup_lt_Some in Hi; lia).
  rewrite (HL i Hlt) in Hi. now injection Hi as <-.
Qed.
End PerturbatorTheorems.

Section ProverTheorems.
Context {F : FieldElement}.
Local Open Scope FF_scope.
Variable NUM_ALL_ENTITIES : nat.
Variable compute_full_honk_relation_row_value :
  list FF -> FF -> RelationParameters -> FF.

(** X8: when the accumulator has [NUM_ALL_ENTITIES] polynomials and [row]
    is an index of each of them, [get_execution_row] returns one value per
    polynomial, in the order of the polynomials: cell [idx] is
    [prover_polynomials[idx][row]]. *)
Theorem execution_row_values (accumulator : ProverInstance.Instance) (row : nat) :
  length (ProverInstance.prover_polynomials accumulator) = NUM_ALL_ENTITIES ->
  Forall (fun poly => (row < length poly)%nat)
    (ProverInstance.prover_polynomials accumulator) ->
  exists row_evals,
    get_execution_row NUM_ALL_ENTITIES accumulator row = Ok row_evals
    /\ length row_evals = NUM_ALL_ENTITIES
    /\ forall idx poly,
         ProverInstance.prover_polynomials accumulator !! idx = Some poly ->
         row_evals !! idx = poly !! row.
Proof.
  intros Hnum Hrow. rewrite Forall_forall in Hrow.
  rewrite (get_execution_row_run NUM_ALL_ENTITIES accumulator row Hnum Hrow).
  eexists; split; [done|]. split.
  - now rewrite length_map.
  - intros idx poly Hidx.
    change (map ?f ?l) with (f <$> l). rewrite list_lookup_fmap, Hidx. simpl.
    destruct (lookup_lt_is_Some_2 poly row
                (Hrow poly (list_elem_of_lookup_2 _ _ _ Hidx))) as [x Hx].
    now rewrite (nth_lookup_Some _ _ _ _ Hx).
Qed.

(** X9: when [row] is not an index of one of the polynomials,
    [get_execution_row] reads that polynomial out of bounds. *)
Theorem execution_row_out_of_bounds (accumulator : ProverInstance.Instance)
    (row idx : nat) (poly : list FF) :
  ProverInstance.prover_polynomials accumulator !! idx = Some poly ->
  (length poly <= row)%nat ->
  get_execution_row NUM_ALL_ENTITIES accumulator row = Err OutOfBounds.
Proof.
  intros Hidx Hshort.
  apply (get_execution_row_short NUM_ALL_ENTITIES accumulator row poly); [|done].
  eapply list_elem_of_lookup_2. exact Hidx.
Qed.

(** X10: for an accumulator with [NUM_ALL_ENTITIES >= 1] polynomials of
    size [2^t], [t >= 1], [t] gate separation challenges and [t] deltas,
    [compute_perturbator] passes its assertions (if they are compiled in)
    and returns what [construct_perturbator_coeffs] makes of the values of
    [compute_full_honk_relation_row_value] on the rows [0 .. 2^t - 1], a
    vector of [t + 1] coefficients. *)
Theorem compute_perturbator_composition (asserts_enabled : bool) (fuel t : nat)
    (accumulator : ProverInstance.Instance) (deltas : list FF) (alpha : FF) :
  length (ProverInstance.prover_polynomials accumulator) = NUM_ALL_ENTITIES ->
  (1 <= NUM_ALL_ENTITIES)%nat ->
  Forall (fun poly => length poly = (2 ^ t)%nat)
    (ProverInstance.prover_polynomials accumulator) ->
  (1 <= t)%nat -> length deltas = t ->
  length (ProverInstance.gate_separation_challenges accumulator) = t ->
  (t <= fuel)%nat ->
  exists coeffs,
    compute_perturbator NUM_ALL_ENTITIES compute_full_honk_relation_row_value
      asserts_enabled fuel accumulator deltas alpha = Done coeffs
    /\ length coeffs = (t + 1)%nat
    /\ construct_perturbator_coeffs fuel
         (ProverInstance.gate_separation_challenges accumulator) deltas
         (map (fun row =>
                 compute_full_honk_relation_row_value
                   (map (fun poly => nth row poly 0)
                      (ProverInstance.prover_polynomials accumulator))
                   alpha (ProverInstance.relation_parameters accumulator))
            (seq 0 (2 ^ t)))
       = Ok coeffs.
Proof.
  intros Hnum Hpos Hsize Ht Hd Hb Hfuel. rewrite Forall_forall in Hsize.
  rewrite (compute_perturbator_run NUM_ALL_ENTITIES compute_full_honk_relation_row_value
             asserts_enabled fuel t accumulator deltas alpha Hnum Hpos Hsize Hd Hb).
  match goal with |- context [construct_perturbator_coeffs fuel ?bs ?ds ?vs] =>
    destruct (construct_perturbator_coeffs_run t fuel bs ds vs) as (c & Hrun & Hlen & _);
      try done
  end.
  - now rewrite length_map, length_seq.
  - exists c. rewrite Hrun. done.
Qed.

(** X11: with assertions compiled in, [compute_perturbator] stops at an
    assertion when the number of deltas, or the number of gate separation
    challenges, is not [get_msb] of the size of the polynomials. *)
Theorem compute_perturbator_asserts (fuel n : nat)
    (accumulator : ProverInstance.Instance) (deltas : list FF) (alpha : FF) :
  length (ProverInstance.prover_polynomials accumulator) = NUM_ALL_ENTITIES ->
  (1 <= NUM_ALL_ENTITIES)%nat ->
  Forall (fun poly => length poly = n) (ProverInstance.prover_polynomials accumulator) ->
  length deltas <> get_msb n
  \/ length (ProverInstance.gate_separation_challenges accumulator) <> get_msb n ->
  compute_perturbator NUM_ALL_ENTITIES compute_full_honk_relation_row_value
    true fuel accumulator deltas alpha = Failed AssertionFailed.
Proof.
  intros Hnum Hpos Hsize Hmis. rewrite Forall_forall in Hsize.
  unfold compute_perturbator.
  destruct (lookup_lt_is_Some_2 (ProverInstance.prover_polynomials accumulator) 0%nat
              ltac:(lia)) as [poly0 Hpoly0].
  rewrite (vec_get_ok _ _ _ Hpoly0). cbn [run checked_bind].
  rewrite (Hsize poly0 (list_elem_of_lookup_2 _ _ _ Hpoly0)).
  unfold assert_.
  destruct (decide (length deltas = get_msb n)) as [Hd|Hd].
  - destruct Hmis as [Hmis|Hmis]; [done|].
    rewrite (bool_decide_eq_true_2 _ Hd). cbn [andb negb checked_bind].
    pose proof (full_honk_evaluations_run NUM_ALL_ENTITIES
                  compute_full_honk_relation_row_value accumulator alpha n Hnum Hsize)
      as Hrows.
    cbv zeta in Hrows |- *. rewrite Hrows. cbn [run checked_bind].
    now rewrite (bool_decide_eq_false_2 _ Hmis).
  - now rewrite (bool_decide_eq_false_2 _ Hd).
Qed.
End ProverTheorems.

Section LookupTheorems.
Context {F : FieldElement}.
Local Open Scope FF_scope.
Add Ring FF_ring_lookup_theorems : FF_ring.

(** X12: accumulating the same row twice, with scaling factors [s1] and
    [s2], is accumulating it once with [s1 + s2]. *)
Theorem lookup_accumulate_scaling_adds (accumulators : FF * FF)
    (new_term : AllEntities) (relation_parameters : RelationParameters) (s1 s2 : FF) :
  LookupRelationImpl.accumulate
    (LookupRelationImpl.accumulate accumulators new_term relation_parameters s1)
    new_term relation_parameters s2
  = LookupRelationImpl.accumulate accumulators new_term relation_parameters (s1 + s2).
Proof.
  destruct accumulators as [a0 a1].
  unfold LookupRelationImpl.accumulate, get0_add_assign, get1_add_assign, View.
  cbn [fst snd]. f_equal; ring.
Qed.

(** X13: the order in which two rows are accumulated does not matter. *)
Theorem lookup_accumulate_rows_commute (accumulators : FF * FF)
    (row1 row2 : AllEntities) (relation_parameters : RelationParameters) (s1 s2 : FF) :
  LookupRelationImpl.accumulate
    (LookupRelationImpl.accumulate accumulators row1 relation_parameters s1)
    row2 relation_parameters s2
  = LookupRelationImpl.accumulate
      (LookupRelationImpl.accumulate accumulators row2 relation_parameters s2)
      row1 relation_parameters s1.
Proof.
  destruct accumulators as [a0 a1].
  unfold LookupRelationImpl.accumulate, get0_add_assign, get1_add_assign, View.
  cbn [fst snd]. f_equal; ring.
Qed.

(** X14: a row on which the grand product takes its step,
    [numerator * (z_lookup + lagrange_first)
     = denominator * (z_lookup_shift + lagrange_last * lookup_grand_product_delta)],
    and on which [lagrange_last * z_lookup_shift = 0], leaves the
    accumulators as they are, whatever the scaling factor. *)
Theorem lookup_accumulate_satisfied_row (accumulators : FF * FF)
    (new_term : AllEntities) (relation_parameters : RelationParameters)
    (scaling_factor : FF) :
  LookupRelationImpl.compute_grand_product_numerator new_term relation_parameters
    * (z_lookup new_term + lagrange_first new_term)
  = LookupRelationImpl.compute_grand_product_denominator new_term relation_parameters
    * (z_lookup_shift new_term
       + lagrange_last new_term * lookup_grand_product_delta relation_parameters) ->
  lagrange_last new_term * z_lookup_shift new_term = 0 ->
  LookupRelationImpl.accumulate accumulators new_term relation_parameters scaling_factor
  = accumulators.
Proof.
  intros Hstep Hlast. destruct accumulators as [a0 a1].
  unfold LookupRelationImpl.accumulate, get0_add_assign, get1_add_assign, View.
  cbn [fst snd]. rewrite Hstep, Hlast. f_equal; ring.
Qed.
End LookupTheorems.

Section OtherTheorems.
Context {F : FieldElement}.
Local Open Scope FF_scope.
Add Ring FF_ring_other_theorems : FF_ring.

(** X15: for [subscript <= 30], [Phi challenge subscript], the sum of the
    powers [challenge^0 .. challenge^(2^subscript - 1)], times
    [challenge - 1] is [challenge^(2^subscript) - 1]; and the formula that
    the test [PhiEvaluation] checks next: for [k < n <= 30],
    [Phi (x^(2^(k+1))) (n - k - 1)] times [x^(2^(k+1)) - 1] is
    [x^(2^n) - 1]. *)
Theorem Phi_geometric_sum (challenge : FF) (subscript : nat) :
  (subscript <= 30)%nat ->
  (exists result,
     ZeroMorphTest.Phi challenge subscript = Some result
     /\ result * (challenge - 1) = FF_pow challenge (2 ^ subscript) - 1)
  /\ forall k, (k < subscript)%nat ->
       exists result,
         ZeroMorphTest.Phi (FF_pow challenge (2 ^ (k + 1))) (subscript - k - 1) = Some result
         /\ result * (FF_pow challenge (2 ^ (k + 1)) - 1)
            = FF_pow challenge (2 ^ subscript) - 1.
Proof.
  intros Hs. split.
  - unfold ZeroMorphTest.Phi, ZeroMorphTest.shift_one. rewrite decide_True by done.
    eexists; split; [done|]. apply geometric_sum.
  - intros k Hk. unfold ZeroMorphTest.Phi, ZeroMorphTest.shift_one.
    rewrite decide_True by lia.
    eexists; split; [done|]. rewrite geometric_sum, FF_pow_mul, <- Nat.pow_add_r.
    do 2 f_equal. f_equal. lia.
Qed.

(** X16: the round challenge powers for a smaller instance are a prefix
    of those for a larger one: for [1 <= t <= t'], the [t] powers are the
    first [t] of the [t'] powers. *)
Theorem round_challenge_pows_prefix (t t' : nat) (delta : FF) :
  (1 <= t)%nat -> (t <= t')%nat ->
  exists pows pows',
    compute_round_challenge_pows t delta = Ok pows
    /\ compute_round_challenge_pows t' delta = Ok pows'
    /\ pows = take t pows'.
Proof.
  intros Ht Htt'.
  destruct (compute_round_challenge_pows_run t delta Ht) as (pows & Hrun & Hlen & Hcells).
  destruct (compute_round_challenge_pows_run t' delta ltac:(lia))
    as (pows' & Hrun' & Hlen' & Hcells').
  exists pows, pows'. split; [done|]. split; [done|].
  apply (list_eq_same_length _ _ t); [rewrite length_take_le; lia | done |].
  intros i x y Hi Hx Hy.
  rewrite (Hcells i Hi) in Hx.
  rewrite lookup_take_lt, (Hcells' i) in Hy by lia. congruence.
Qed.
End OtherTheorems.

(** ** The theorems on sample inputs *)

Lemma perturbator_is_weighted_sum_witness :
  exists coeffs,
    construct_perturbator_coeffs (F := Bn254.Fr) 3
      (map Bn254.reduce [2; 3; 5]%Z) (map Bn254.reduce [7; 11; 13]%Z)
      (map Bn254.reduce [1; 2; 3; 4; 5; 6; 7; 8]%Z) = Ok coeffs
    /\ forall x, eval_poly (F := Bn254.Fr) coeffs x
         = weighted_sum (F := Bn254.Fr)
             (level_factors (F := Bn254.Fr) (map Bn254.reduce [2; 3; 5]%Z)
                (map Bn254.reduce [7; 11; 13]%Z) x) 0
             (map Bn254.reduce [1; 2; 3; 4; 5; 6; 7; 8]%Z).
Proof.
  apply (perturbator_is_weighted_sum (F := Bn254.Fr) 3 3);
    [lia | reflexivity | reflexivity | reflexivity | lia].
Defined.

Lemma perturbator_constant_term_witness :
  exists coeffs,
    construct_perturbator_coeffs (F := Bn254.Fr) 3
      (map Bn254.reduce [2; 3; 5]%Z) (map Bn254.reduce [7; 11; 13]%Z)
      (map Bn254.reduce [1; 2; 3; 4; 5; 6; 7; 8]%Z) = Ok coeffs
    /\ coeffs !! 0 = Some (Bn254.reduce 468).
Proof.
  apply (perturbator_constant_term (F := Bn254.Fr) 3 3
           (map Bn254.reduce [2; 3; 5]%Z) (map Bn254.reduce [7; 11; 13]%Z)
           (map Bn254.reduce [1; 2; 3; 4; 5; 6; 7; 8]%Z));
    [lia | reflexivity | reflexivity | reflexivity | lia].
Defined.

Lemma perturbator_level_polynomials_witness :
  exists L,
    compute_level_coeffs (F := Bn254.Fr) 1
      (map Bn254.reduce [2; 3]%Z) (map Bn254.reduce [7; 11]%Z)
      [map Bn254.reduce [5; 14]%Z; map Bn254.reduce [11; 28]%Z] = Ok L
    /\ forall x, map (fun v => eval_poly (F := Bn254.Fr) v x) L
         = fold_pairs (F := Bn254.Fr)
             (Bn254.fr_add (Bn254.reduce 3) (Bn254.fr_mul (Bn254.reduce 11) x))
             (map (fun v => eval_poly (F := Bn254.Fr) v x)
                [map Bn254.reduce [5; 14]%Z; map Bn254.reduce [11; 28]%Z]).
Proof.
  apply (perturbator_level_polynomials (F := Bn254.Fr) 1
           (map Bn254.reduce [2; 3]%Z) (map Bn254.reduce [7; 11]%Z)
           [map Bn254.reduce [5; 14]%Z; map Bn254.reduce [11; 28]%Z]
           (Bn254.reduce 3) (Bn254.reduce 11) 1);
    [reflexivity | reflexivity | reflexivity | repeat constructor].
Defined.



Lemma perturbator_odd_rows_out_of_bounds_witness :
  construct_perturbator_coeffs (F := Bn254.Fr) 3
    (map Bn254.reduce [2; 3; 5]%Z) (map Bn254.reduce [7; 11; 13]%Z)
    (map Bn254.reduce [1; 2; 3; 4; 5; 6; 7]%Z) = Err OutOfBounds.
Proof.
  apply (perturbator_odd_rows_out_of_bounds (F := Bn254.Fr) 3 3). reflexivity.
Defined.

Lemma perturbator_surplus_betas_out_of_bounds_witness :
  construct_perturbator_coeffs (F := Bn254.Fr) 3
    (map Bn254.reduce [2; 3; 5]%Z) (map Bn254.reduce [7; 11; 13]%Z)
    (map Bn254.reduce [1; 2; 3; 4]%Z) = Err OutOfBounds.
Proof.
  apply (perturbator_surplus_betas_out_of_bounds (F := Bn254.Fr) 2 3);
    [lia | simpl; lia | simpl; lia | reflexivity | lia].
Defined.

Lemma execution_row_values_witness :
  exists row_evals,
    get_execution_row (F := Bn254.Fr) 2 Sample.accumulator 2 = Ok row_evals
    /\ length row_evals = 2
    /\ row_evals !! 0 = Some (Bn254.reduce 3)
    /\ row_evals !! 1 = Some (Bn254.reduce 7).
Proof.
  destruct (execution_row_values (F := Bn254.Fr) 2 Sample.accumulator 2
              eq_refl ltac:(repeat constructor; simpl; lia))
    as (row_evals & Hrun & Hlen & Hcells).
  exists row_evals. split; [exact Hrun|]. split; [exact Hlen|]. split.
  - exact (Hcells 0 (map Bn254.reduce [1; 2; 3; 4]%Z) eq_refl).
  - exact (Hcells 1 (map Bn254.reduce [5; 6; 7; 8]%Z) eq_refl).
Defined.

Lemma execution_row_out_of_bounds_witness :
  get_execution_row (F := Bn254.Fr) 2 Sample.accumulator 4 = Err OutOfBounds.
Proof.
  apply (execution_row_out_of_bounds (F := Bn254.Fr) 2 Sample.accumulator 4 1
           (map Bn254.reduce [5; 6; 7; 8]%Z));
    [reflexivity | simpl; lia].
Defined.

Lemma compute_perturbator_composition_witness :
  exists coeffs,
    compute_perturbator (F := Bn254.Fr) 2 Sample.row_value true 2 Sample.accumulator
      (map Bn254.reduce [7; 11]%Z) (Bn254.reduce 10) = Done coeffs
    /\ length coeffs = 3.
Proof.
  destruct (compute_perturbator_composition (F := Bn254.Fr) 2 Sample.row_value true 2 2
              Sample.accumulator (map Bn254.reduce [7; 11]%Z) (Bn254.reduce 10)
              eq_refl ltac:(lia) ltac:(repeat constructor) ltac:(lia) eq_refl eq_refl
              ltac:(lia)) as (coeffs & Hrun & Hlen & _).
  exists coeffs. split; [exact Hrun | exact Hlen].
Defined.

Lemma compute_perturbator_asserts_witness :
  compute_perturbator (F := Bn254.Fr) 2 Sample.row_value true 2 Sample.accumulator
    (map Bn254.reduce [7; 11; 13]%Z) (Bn254.reduce 10) = Failed AssertionFailed.
Proof.
  apply (compute_perturbator_asserts (F := Bn254.Fr) 2 Sample.row_value 2 4
           Sample.accumulator (map Bn254.reduce [7; 11; 13]%Z) (Bn254.reduce 10));
    [reflexivity | lia | repeat constructor | left; vm_compute; discriminate].
Defined.

Lemma lookup_accumulate_satisfied_row_witness :
  LookupRelationImpl.accumulate (F := Bn254.Fr) (Bn254.reduce 40, Bn254.reduce 41)
    Sample.satisfied_row Scenario.lookup_parameters (Bn254.reduce 9)
  = (Bn254.reduce 40, Bn254.reduce 41).
Proof.
  apply (lookup_accumulate_satisfied_row (F := Bn254.Fr)
           (Bn254.reduce 40, Bn254.reduce 41)
           Sample.satisfied_row Scenario.lookup_parameters (Bn254.reduce 9));
    vm_compute; reflexivity.
Defined.

Lemma Phi_geometric_sum_witness :
  exists result,
    ZeroMorphTest.Phi (F := Bn254.Fr) (Bn254.reduce 3) 3 = Some result
    /\ Bn254.fr_mul result (Bn254.fr_sub (Bn254.reduce 3) (Bn254.reduce 1))
       = Bn254.fr_sub (FF_pow (F := Bn254.Fr) (Bn254.reduce 3) (2 ^ 3)) (Bn254.reduce 1).
Proof.
  apply (proj1 (Phi_geometric_sum (F := Bn254.Fr) (Bn254.reduce 3) 3 ltac:(lia))).
Defined.

Lemma round_challenge_pows_prefix_witness :
  exists pows pows',
    compute_round_challenge_pows (F := Bn254.Fr) 2 (Bn254.reduce 3) = Ok pows
    /\ compute_round_challenge_pows (F := Bn254.Fr) 4 (Bn254.reduce 3) = Ok pows'
    /\ pows = take 2 pows'.
Proof.
  apply (round_challenge_pows_prefix (F := Bn254.Fr) 2 4 (Bn254.reduce 3)); lia.
Defined.
